(** * Verification of the NyayaGhost legal screens

    Shallow embedding of the text-processing and control logic of
    [LegalAssistant.js] (chat loop [handleSend], FIR field extraction and
    document assembly in [generateFIRAndShare]) and of
    [LegalRightsGuide.js] ([handleSearch]).

    JavaScript strings are sequences of UTF-16 code units; they are modelled
    as lists of [N], so that every string the program can receive is covered
    (not only ASCII text). *)

From Stdlib Require Import List NArith Bool String Ascii Lia Arith.
Import ListNotations.

Local Open Scope string_scope.
Local Open Scope N_scope.
Local Open Scope list_scope.
Local Abbreviation length := Datatypes.length.

(* ================================================================== *)
(** * Part I: definitions *)
(* ================================================================== *)

(** ** JavaScript strings *)

Definition char16 := N.
Definition JSString := list char16.

(** An ASCII literal of the source as a JavaScript string. *)
Definition js (s : string) : JSString :=
  map N_of_ascii (list_ascii_of_string s).

Definition dquote : char16 := 34.

Fixpoint join (sep : JSString) (parts : list JSString) : JSString :=
  match parts with
  | [] => []
  | [p] => p
  | p :: rest => p ++ sep ++ join sep rest
  end.

(** Source literals that contain double quotes are written as their pieces
    between the quotes. *)
Definition with_dquotes (pieces : list string) : JSString :=
  join [dquote] (map js pieces).

Fixpoint str_eqb (a b : JSString) : bool :=
  match a, b with
  | [], [] => true
  | x :: a', y :: b' => (x =? y) && str_eqb a' b'
  | _, _ => false
  end.

Definition is_empty (s : JSString) : bool :=
  match s with [] => true | _ => false end.

(** [startsWith pat s]: [pat] is a prefix of [s], code unit by code unit. *)
Fixpoint startsWith (pat s : JSString) : bool :=
  match pat, s with
  | [], _ => true
  | p :: pat', c :: s' => (p =? c) && startsWith pat' s'
  | _ :: _, [] => false
  end.

(** [indexOf pat s]: StringIndexOf(s, pat, 0), the first position at which
    [pat] occurs, [None] for -1. *)
Fixpoint indexOf (pat s : JSString) : option nat :=
  if startsWith pat s then Some 0%nat
  else match s with
       | [] => None
       | _ :: s' => option_map S (indexOf pat s')
       end.

(** String.prototype.includes *)
Definition includes (s pat : JSString) : bool :=
  match indexOf pat s with Some _ => true | None => false end.

(** WhiteSpace and LineTerminator code points of ECMAScript, the set that
    String.prototype.trim strips. *)
Definition isWhiteSpace (c : char16) : bool :=
  (c =? 9) || (c =? 10) || (c =? 11) || (c =? 12) || (c =? 13) || (c =? 32)
  || (c =? 160) || (c =? 5760) || ((8192 <=? c) && (c <=? 8202))
  || (c =? 8232) || (c =? 8233) || (c =? 8239) || (c =? 8287)
  || (c =? 12288) || (c =? 65279).

Fixpoint trimStart (s : JSString) : JSString :=
  match s with
  | [] => []
  | c :: s' => if isWhiteSpace c then trimStart s' else s
  end.

Definition trimEnd (s : JSString) : JSString := rev (trimStart (rev s)).

(** String.prototype.trim *)
Definition trim (s : JSString) : JSString := trimEnd (trimStart s).

(** GetSubstitution for a string search value (no captures): in the
    replacement text [$$] stands for a dollar sign, [$&] for the matched
    text, [$`] for the text before the match and [$'] for the text after it;
    a dollar sign followed by anything else (digits included, as there is no
    capture group) is copied as it is. *)
Fixpoint getSubstitution (matched preceding following template : JSString)
  : JSString :=
  match template with
  | [] => []
  | c :: rest =>
      if c =? 36 then
        match rest with
        | [] => [c]
        | d :: rest' =>
            if d =? 36 then
              36 :: getSubstitution matched preceding following rest'
            else if d =? 96 then
              preceding ++ getSubstitution matched preceding following rest'
            else if d =? 38 then
              matched ++ getSubstitution matched preceding following rest'
            else if d =? 39 then
              following ++ getSubstitution matched preceding following rest'
            else
              c :: getSubstitution matched preceding following rest
        end
      else c :: getSubstitution matched preceding following rest
  end.

(** String.prototype.replace(searchValue, replaceValue) with both arguments
    strings: only the first occurrence is replaced, and the replacement text
    goes through [getSubstitution]. *)
Definition replace (s searchValue replaceValue : JSString) : JSString :=
  match indexOf searchValue s with
  | None => s
  | Some pos =>
      let preceding := firstn pos s in
      let following := skipn (pos + length searchValue) s in
      preceding
        ++ getSubstitution searchValue preceding following replaceValue
        ++ following
  end.

(** A string without unpaired surrogate: [encodeURIComponent] throws a
    URIError on the others.  A code unit from 55296 to 56319 is a high
    surrogate and must be followed by a low one, from 56320 to 57343; a low
    surrogate may stand nowhere else. *)
Fixpoint isWellFormed (s : JSString) : bool :=
  match s with
  | [] => true
  | c :: rest =>
      if (55296 <=? c) && (c <=? 56319) then
        match rest with
        | [] => false
        | d :: rest' =>
            (56320 <=? d) && (d <=? 57343) && isWellFormed rest'
        end
      else if (56320 <=? c) && (c <=? 57343) then false
      else isWellFormed rest
  end.

(** ** LegalAssistant.js *)

Module LegalAssistant.

(** *** Constants *)

Definition SYSTEM_PROMPT : JSString :=
  with_dquotes
    [ "You are a trauma-informed legal assistant focused on domestic violence in India. Your role has two phases:

PHASE 1 - Information Gathering:
- Ask essential questions in a compassionate, step-by-step way
- Required fields: victim name, age, contact, incident date/time/place, brief chronology
- Optional fields: witness details, evidence details, medical reports
- Clarify unclear details gently
- When suggesting IPC sections, if unsure say ";
      "NEEDS_SEARCH";
      "

PHASE 2 - FIR Creation (when you have sufficient info):
- Signal readiness by saying ";
      "I have enough information to prepare the FIR draft.";
      "
- If user requests FIR or if you have all essential details, begin compiling
- Present your final response before PDF creation clearly marked with ";
      "READY_FOR_FIR";
      "

Always maintain trauma-informed, empathetic communication while gathering facts systematically." ].

Definition FIR_TEMPLATE : JSString :=
  with_dquotes
    [ "
<!DOCTYPE html>
<html>
<head>
<style>
  body { font-family: Arial, sans-serif; line-height: 1.6; padding: 40px; }
  .header { text-align: center; margin-bottom: 30px; }
  .section { margin: 20px 0; }
  .section-title { font-weight: bold; margin-bottom: 10px; }
  .footer { margin-top: 40px; }
  .signature-line { margin-top: 20px; border-top: 1px solid #000; width: 200px; }
</style>
</head>
<body>
  <div class=";
      "header";
      ">
    <h2>FIRST INFORMATION REPORT</h2>
    <p>(Under Section 154 Cr.P.C)</p>
  </div>
  {{CONTENT}}
  <div class=";
      "footer";
      ">
    <div style=";
      "float:left";
      ">
      <p>Date: {{DATE}}</p>
      <p class=";
      "signature-line";
      ">Signature of Complainant</p>
    </div>
    <div style=";
      "float:right";
      ">
      <p class=";
      "signature-line";
      ">Signature of Officer</p>
    </div>
  </div>
</body>
</html>" ].

(** *** generateFIRAndShare: field extraction and document assembly *)

Definition sections : list JSString :=
  [ js "Complainant Details"; js "Incident Details"; js "Accused Details";
    js "Witness Details"; js "Evidence Details"; js "IPC Sections" ].

Definition NOT_PROVIDED : JSString := js "Information not provided".

(** Character comparison under the flag [i] (no [u] flag).  Canonicalize
    maps a code unit to its upper-case form, except that a code unit of 128
    or more is never mapped below 128.  Every pattern character of this
    program is ASCII, so only the ASCII part of the mapping can make a
    comparison succeed; code units outside [a-z] are left as they are. *)
Definition canonicalize (c : char16) : char16 :=
  if (97 <=? c) && (c <=? 122) then c - 32 else c.

(** A literal piece of a pattern matched at the head of [text] under flag
    [i]: the text consumed and the text that follows. *)
Fixpoint match_literal (pat text : JSString) : option (JSString * JSString) :=
  match pat with
  | [] => Some ([], text)
  | p :: pat' =>
      match text with
      | [] => None
      | c :: text' =>
          if canonicalize p =? canonicalize c then
            match match_literal pat' text' with
            | Some (m, rest) => Some (c :: m, rest)
            | None => None
            end
          else None
      end
  end.

(** The source text of the group inside the lookahead,
    [${sections.join('|')}:|$]. *)
Definition lookahead_source : JSString :=
  join (js "|") sections ++ js ":|$".

(** A disjunction is read as its alternatives, the pieces between the
    vertical bars. *)
Fixpoint split_bar (src : JSString) : list JSString :=
  match src with
  | [] => [[]]
  | c :: rest =>
      if c =? 124 then [] :: split_bar rest
      else match split_bar rest with
           | [] => [[c]]
           | a :: alts => (c :: a) :: alts
           end
  end.

Inductive Alternative : Type :=
  | Literal (s : JSString)
  | EndOfInput.

(** No label holds a pattern character with a special meaning, so an
    alternative is either the assertion [$] or a literal. *)
Definition parse_alternative (src : JSString) : Alternative :=
  if str_eqb src (js "$") then EndOfInput else Literal src.

Definition lookahead_alternatives : list Alternative :=
  map parse_alternative (split_bar lookahead_source).

Definition alternative_matches (text : JSString) (a : Alternative) : bool :=
  match a with
  | Literal s =>
      match match_literal s text with Some _ => true | None => false end
  | EndOfInput => is_empty text
  end.

(** [(?=(...))] at the head of [text]. *)
Definition lookahead (text : JSString) : bool :=
  existsb (alternative_matches text) lookahead_alternatives.

(** [[\s\S]*?(?=...)]: the shortest run of code units after which the
    lookahead holds.  [None] is a failure of the whole attempt. *)
Fixpoint lazy_any (text : JSString) : option JSString :=
  if lookahead text then Some []
  else match text with
       | [] => None
       | c :: text' =>
           match lazy_any text' with
           | Some body => Some (c :: body)
           | None => None
           end
       end.

(** The whole pattern of [section] tried at the head of [text]. *)
Definition match_here (section text : JSString) : option JSString :=
  match match_literal (section ++ js ":") text with
  | Some (label, rest) =>
      match lazy_any rest with
      | Some body => Some (label ++ body)
      | None => None
      end
  | None => None
  end.

(** The pattern tried at each position from the left: the index of the
    first success and the text matched there. *)
Fixpoint regex_search (section text : JSString) : option (nat * JSString) :=
  match match_here section text with
  | Some m => Some (0%nat, m)
  | None =>
      match text with
      | [] => None
      | _ :: text' =>
          match regex_search section text' with
          | Some (i, m) => Some (S i, m)
          | None => None
          end
      end
  end.

(** [contentText.match(regex)] for a regex without flag [g]: element 0 of
    the result, [None] for null. *)
Definition string_match (contentText section : JSString) : option JSString :=
  option_map snd (regex_search section contentText).

(** The content computed by the callback of [sections.map]. *)
Definition extractContent (section contentText : JSString) : JSString :=
  match string_match contentText section with
  | Some m0 => trim (replace m0 (section ++ js ":") [])
  | None => NOT_PROVIDED
  end.

(** The markup returned by the callback. *)
Definition sectionBlock (section content : JSString) : JSString :=
  with_dquotes [ "
          <div class="; "section"; ">
            <div class="; "section-title"; ">" ]
    ++ section ++ js "</div>
            <div>" ++ content ++ js "</div>
          </div>".

(** The label and content pairs behind the blocks. *)
Definition extractedSections (contentText : JSString)
  : list (JSString * JSString) :=
  map (fun section => (section, extractContent section contentText)) sections.

Definition structuredContent (contentText : JSString) : JSString :=
  join []
    (map (fun section =>
            sectionBlock section (extractContent section contentText))
       sections).

(** [today] stands for [new Date().toLocaleDateString('en-IN')]. *)
Definition formattedHtml (today contentText : JSString) : JSString :=
  replace
    (replace FIR_TEMPLATE (js "{{CONTENT}}") (structuredContent contentText))
    (js "{{DATE}}") today.


(** *** The same step with its RegExp objects

    [new RegExp] allocates an object that carries its flags and a mutable
    [lastIndex]; the objects live in a store that the step threads. *)

Record RegExp : Type := mkRegExp {
  re_section : JSString;   (* the label the pattern was built from *)
  re_flags : JSString;
  re_lastIndex : nat
}.

Definition Store := list RegExp.

Definition St (A : Type) : Type := Store -> A * Store.

Definition st_ret {A} (a : A) : St A := fun st => (a, st).

Definition st_bind {A B} (m : St A) (f : A -> St B) : St B :=
  fun st => let (a, st') := m st in f a st'.

Fixpoint st_map {A B} (f : A -> St B) (l : list A) : St (list B) :=
  match l with
  | [] => st_ret []
  | a :: l' =>
      st_bind (f a) (fun b =>
      st_bind (st_map f l') (fun bs => st_ret (b :: bs)))
  end.

Definition newRegExp (section flags : JSString) : St nat :=
  fun st => (length st, st ++ [mkRegExp section flags 0]).

Fixpoint setLastIndex (r : nat) (i : nat) (st : Store) : Store :=
  match st, r with
  | [], _ => []
  | R :: st', O => mkRegExp (re_section R) (re_flags R) i :: st'
  | R :: st', S r' => R :: setLastIndex r' i st'
  end.

(** RegExpBuiltinExec: [lastIndex] is read only under flag [g] or [y], and
    written only under them. *)
Definition regExpBuiltinExec (r : nat) (str : JSString)
  : St (option (nat * JSString)) :=
  fun st =>
    match nth_error st r with
    | None => (None, st)
    | Some R =>
        let global := includes (re_flags R) (js "g") in
        let sticky := includes (re_flags R) (js "y") in
        let lastIndex :=
          if global || sticky then re_lastIndex R else 0%nat in
        let write i := if global || sticky then setLastIndex r i st else st in
        if (length str <? lastIndex)%nat then (None, write 0%nat)
        else
          let found :=
            if sticky then
              option_map (pair 0%nat)
                (match_here (re_section R) (skipn lastIndex str))
            else regex_search (re_section R) (skipn lastIndex str) in
          match found with
          | None => (None, write 0%nat)
          | Some (i, m) =>
              (Some ((lastIndex + i)%nat, m),
               write (lastIndex + i + length m)%nat)
          end
    end.

(** [contentText.match(regex)], element 0 of the result.  Under flag [g]
    the result lists every match, found by repeated exec from index 0 until
    one fails, which leaves [lastIndex] at 0; its element 0 is the first of
    them. *)
Definition string_match_obj (contentText : JSString) (regex : nat)
  : St (option JSString) :=
  fun st =>
    match nth_error st regex with
    | None => (None, st)
    | Some R =>
        if includes (re_flags R) (js "g") then
          let (found, _) := regExpBuiltinExec regex contentText
                              (setLastIndex regex 0%nat st) in
          (option_map snd found, setLastIndex regex 0%nat st)
        else
          let (found, st') := regExpBuiltinExec regex contentText st in
          (option_map snd found, st')
    end.

(** The callback of [sections.map], as written. *)
Definition extractBlock (contentText section : JSString) : St JSString :=
  st_bind (newRegExp section (js "i")) (fun regex =>
  st_bind (string_match_obj contentText regex) (fun m =>
  let content :=
    match m with
    | Some m0 => trim (replace m0 (section ++ js ":") [])
    | None => NOT_PROVIDED
    end in
  st_ret (sectionBlock section content))).

Definition structuredContent_run (contentText : JSString) : St JSString :=
  st_bind (st_map (extractBlock contentText) sections) (fun blocks =>
  st_ret (join [] blocks)).

(** *** The chat screen: state, services and effects *)

Inductive Role : Type := user | assistant.

Record Message : Type := mkMessage { role : Role; text : JSString }.

(** One of the top results kept by [querySerpApiForIPC]. *)
Record SerpItem : Type := mkSerpItem {
  title : JSString;
  link : JSString;
  snippet : JSString
}.

(** The [metadata] object: empty, or with [sources] set to the search
    results ([None] for null). *)
Inductive Metadata : Type :=
  | NoMetadata
  | Sources (results : option (list SerpItem)).

(** What the screen asks of the outside world. *)
Inductive Event : Type :=
  | Insert (r : Role) (message : JSString) (metadata : Metadata)
  | GenerateContent (prompt : JSString)
  | Fetch (query : JSString).

(** The component state held by [useState], and the requests sent so far. *)
Record Screen : Type := mkScreen {
  messages : list Message;
  inputText : JSString;
  isLoading : bool;
  trace : list Event
}.

(** The external collaborators.  Each answer may depend on everything
    requested before.  [None] is a rejected promise or a thrown error. *)
Record Services : Type := mkServices {
  genAI : bool;                  (* a GEMINI_API_KEY was configured *)
  generateContent : list Event -> JSString -> option JSString;
  SERPAPI_KEY : bool;            (* a SerpAPI key was configured *)
  organic_results : list Event -> JSString -> option (list SerpItem);
  insert_rejected : list Event -> bool
}.

Inductive Completion (A : Type) : Type :=
  | Normal (a : A)
  | Throw (e : JSString).
Arguments Normal {A} a.
Arguments Throw {A} e.

(** Computations over the screen that may throw. *)
Definition M (A : Type) : Type := Screen -> Completion A * Screen.

Definition ret {A} (a : A) : M A := fun w => (Normal a, w).

Definition bind {A B} (m : M A) (f : A -> M B) : M B :=
  fun w =>
    match m w with
    | (Normal a, w') => f a w'
    | (Throw e, w') => (Throw e, w')
    end.

Definition throw {A} (e : JSString) : M A := fun w => (Throw e, w).

Definition try_catch {A} (body : M A) (handler : JSString -> M A) : M A :=
  fun w =>
    match body w with
    | (Normal a, w') => (Normal a, w')
    | (Throw e, w') => handler e w'
    end.

Definition try_finally {A} (body : M A) (finalizer : M unit) : M A :=
  fun w =>
    let (c, w') := body w in
    match finalizer w' with
    | (Normal _, w'') => (c, w'')
    | (Throw e, w'') => (Throw e, w'')
    end.

Declare Scope chat_scope.
Delimit Scope chat_scope with chat.
Notation "x <- m ;; k" := (bind m (fun x => k))
  (at level 61, m at next level, right associativity) : chat_scope.
Notation "m ;; k" := (bind m (fun _ => k))
  (at level 61, right associativity) : chat_scope.
Local Open Scope chat_scope.

Definition getInputText : M JSString := fun w => (Normal (inputText w), w).

Definition setMessages (f : list Message -> list Message) : M unit :=
  fun w =>
    (Normal tt, mkScreen (f (messages w)) (inputText w) (isLoading w) (trace w)).

Definition setInputText (s : JSString) : M unit :=
  fun w => (Normal tt, mkScreen (messages w) s (isLoading w) (trace w)).

Definition setIsLoading (b : bool) : M unit :=
  fun w => (Normal tt, mkScreen (messages w) (inputText w) b (trace w)).

Definition request (ev : Event) (w : Screen) : Screen :=
  mkScreen (messages w) (inputText w) (isLoading w) (trace w ++ [ev]).

Section Chat.

Variable services : Services.

(** [console.warn] is not part of the state and is left out. *)
Definition saveInteraction (r : Role) (message : JSString)
    (metadata : Metadata) : M unit :=
  try_catch
    (fun w =>
       if insert_rejected services (trace w)
       then (Throw (js "insert failed"), request (Insert r message metadata) w)
       else (Normal tt, request (Insert r message metadata) w))
    (fun _ => ret tt).

(** The whole body after the key test is inside [try].  The address is
    built first, with [encodeURIComponent(query)], which throws when the
    query holds an unpaired surrogate: then nothing is requested.  A failure
    of the request, of the parsing of its answer or of the reading of the
    results comes after the request was sent.  Each failure gives null. *)
Definition querySerpApiForIPC (query : JSString)
  : M (option (list SerpItem)) :=
  if negb (SERPAPI_KEY services) then ret None
  else
    try_catch
      (fun w =>
         if negb (isWellFormed query) then (Throw (js "URI malformed"), w)
         else
           match organic_results services (trace w) query with
           | Some items =>
               (Normal (Some (firstn 5 items)), request (Fetch query) w)
           | None => (Throw (js "fetch failed"), request (Fetch query) w)
           end)
      (fun _ => ret None).

Definition callGemini (prompt : JSString) : M JSString :=
  if negb (genAI services) then throw (js "Gemini not configured")
  else
    fun w =>
      match generateContent services (trace w) prompt with
      | Some reply => (Normal reply, request (GenerateContent prompt) w)
      | None =>
          (Throw (js "generateContent failed"),
           request (GenerateContent prompt) w)
      end.

Definition FALLBACK : JSString :=
  js "I am having trouble reaching the helper service right now. Please try again shortly.".

Definition chatPrompt (userText : JSString) : JSString :=
  SYSTEM_PROMPT ++ js "

User: " ++ userText ++ js "
Assistant:".

Definition sourcePrompt (sourceSummary userText : JSString) : JSString :=
  SYSTEM_PROMPT ++ js "

Sources:
" ++ sourceSummary ++ js "

User: " ++ userText ++ js "
Assistant:".

Definition handleSend : M unit :=
  current <- getInputText ;;
  if is_empty (trim current) then ret tt
  else
    let userText := trim current in
    let userMsg := mkMessage user userText in
    setMessages (fun prev => prev ++ [userMsg]) ;;
    setInputText [] ;;
    saveInteraction user userText NoMetadata ;;
    setIsLoading true ;;
    try_finally
      (let prompt := chatPrompt userText in
       aiReply <- try_catch (callGemini prompt) (fun _ => ret FALLBACK) ;;
       reply_meta <-
         (if negb (is_empty aiReply) && includes aiReply (js "NEEDS_SEARCH")
          then
            results <- querySerpApiForIPC
                         (userText
                            ++ js " IPC relevant sections domestic violence India") ;;
            let sourceSummary :=
              join (js "
")
                (map (fun r => title r ++ js " - " ++ link r)
                   (match results with Some l => l | None => [] end)) in
            reevaluated <- try_catch
                             (callGemini (sourcePrompt sourceSummary userText))
                             (fun _ => ret aiReply) ;;
            ret (reevaluated, Sources results)
          else ret (aiReply, NoMetadata)) ;;
       let botMsg := mkMessage assistant (fst reply_meta) in
       setMessages (fun prev => prev ++ [botMsg]) ;;
       saveInteraction assistant (fst reply_meta) (snd reply_meta))
      (setIsLoading false).

End Chat.

(** *** The send button and the reset *)

(** [disabled={!inputText.trim() || isLoading}] *)
Definition sendDisabled (w : Screen) : bool :=
  is_empty (trim (inputText w)) || isLoading w.

(** The greeting; its dash is the code unit 8212. *)
Definition GREETING : JSString :=
  js "Hi " ++ [8212]
  ++ js " I am here to listen and help. Tell me what happened when you are ready.".

(** The effect on screen entry and the Reset button. *)
Definition resetChat : M unit :=
  setMessages (fun _ => [mkMessage assistant GREETING]).

(** *** generateFIRAndShare *)

Inductive PlatformOS : Type := android | ios | otherOS.

(** What the screen hands to the device. *)
Inductive Output : Type :=
  | PrintToFile (html : JSString)
  | ShareFile (uri mimeType : JSString)
  | AlertShown (title message : JSString).

(** The device side: the platform, the local date as
    [toLocaleDateString('en-IN')] gives it, the printer ([None]: it
    rejects) and the share sheet. *)
Record Device : Type := mkDevice {
  OS : PlatformOS;
  localDate : JSString;
  printToFileAsync : JSString -> option JSString;
  share_rejected : JSString -> bool
}.

Record App : Type := mkApp { screen : Screen; outputs : list Output }.

(** Computations over the screen and the device outputs. *)
Definition F (A : Type) : Type := App -> Completion A * App.

Definition f_ret {A} (a : A) : F A := fun s => (Normal a, s).

Definition f_bind {A B} (m : F A) (f : A -> F B) : F B :=
  fun s =>
    match m s with
    | (Normal a, s') => f a s'
    | (Throw e, s') => (Throw e, s')
    end.

Definition f_try_catch {A} (body : F A) (handler : JSString -> F A) : F A :=
  fun s =>
    match body s with
    | (Normal a, s') => (Normal a, s')
    | (Throw e, s') => handler e s'
    end.

Definition f_try_finally {A} (body : F A) (finalizer : F unit) : F A :=
  fun s =>
    let (c, s') := body s in
    match finalizer s' with
    | (Normal _, s'') => (c, s'')
    | (Throw e, s'') => (Throw e, s'')
    end.

(** A computation of the chat screen run inside the larger state. *)
Definition lift {A} (m : M A) : F A :=
  fun s => let (c, w') := m (screen s) in (c, mkApp w' (outputs s)).

Definition emit (o : Output) : F unit :=
  fun s => (Normal tt, mkApp (screen s) (outputs s ++ [o])).

Declare Scope fir_scope.
Delimit Scope fir_scope with fir.
Notation "x <- m ;; k" := (f_bind m (fun x => k))
  (at level 61, m at next level, right associativity) : fir_scope.
Notation "m ;; k" := (f_bind m (fun _ => k))
  (at level 61, right associativity) : fir_scope.

Definition convoText (msgs : list Message) : JSString :=
  join (js "
")
    (map (fun m =>
            (match role m with user => js "User" | assistant => js "Assistant" end)
              ++ js ": " ++ text m)
       msgs).

Definition extractPrompt (convoText : JSString) : JSString :=
  with_dquotes
    [ "
      Extract structured FIR information from the conversation below. Format as sections:
      
      Complainant Details: [Name, Age, Contact, Address]
      Incident Details: [Date, Time, Place, Detailed description of incident]
      Accused Details: [Name(s), Relationship to victim, Description]
      Witness Details: [Names and contact info if available]
      Evidence Details: [Any physical evidence, medical reports, photos, etc.]
      IPC Sections: [Relevant sections with brief explanations]

      Format each section clearly. If any section lacks information, note as ";
      "Information not provided.";
      "

      Conversation:
      " ]
  ++ convoText ++ js "
    ".

Section FIR.

Variable services : Services.
Variable device : Device.

Local Open Scope fir_scope.

Definition printToFile (html : JSString) : F JSString :=
  fun s =>
    match printToFileAsync device html with
    | Some uri => (Normal uri, mkApp (screen s) (outputs s ++ [PrintToFile html]))
    | None =>
        (Throw (js "print failed"),
         mkApp (screen s) (outputs s ++ [PrintToFile html]))
    end.

Definition shareAsync (uri mimeType : JSString) : F unit :=
  fun s =>
    if share_rejected device uri
    then (Throw (js "share failed"),
          mkApp (screen s) (outputs s ++ [ShareFile uri mimeType]))
    else (Normal tt, mkApp (screen s) (outputs s ++ [ShareFile uri mimeType])).

Definition generateFIRAndShare : F unit :=
  fun s0 =>
    let prompt := extractPrompt (convoText (messages (screen s0))) in
    (lift (setIsLoading true) ;;
     f_try_finally
       (f_try_catch
          (contentText <- lift (callGemini services prompt) ;;
           let html := formattedHtml (localDate device) contentText in
           uri <- printToFile html ;;
           match OS device with
           | android | ios => shareAsync uri (js "application/pdf")
           | otherOS => emit (AlertShown (js "FIR PDF saved") (js "File: " ++ uri))
           end)
          (fun _ => emit (AlertShown (js "Error") (js "Could not generate FIR."))))
       (lift (setIsLoading false))) s0.

End FIR.

(** *** Keys *)

(** The configuration read at load time: the [extra] objects of the Expo
    configuration and of the manifest ([None] when absent) and the process
    environment; a name that is not set reads as [None]. *)
Record Config : Type := mkConfig {
  expoExtra : option (JSString -> option JSString);
  manifestExtra : option (JSString -> option JSString);
  processEnv : option (JSString -> option JSString)
}.

(** A value that passes a truth test: set and not the empty string. *)
Definition truthy (v : option JSString) : option JSString :=
  match v with
  | Some (c :: s) => Some (c :: s)
  | _ => None
  end.

Definition loadKey (cfg : Config) (name : JSString) : option JSString :=
  let extra :=
    match expoExtra cfg with
    | Some e => e
    | None =>
        match manifestExtra cfg with
        | Some e => e
        | None => fun _ => None
        end
    end in
  match truthy (extra name) with
  | Some v => Some v
  | None =>
      match processEnv cfg with
      | Some env => truthy (env name)
      | None => None
      end
  end.

Definition GEMINI_API_KEY (cfg : Config) : option JSString :=
  loadKey cfg (js "GEMINI_API_KEY").

Definition GEMINI_MODEL_ID (cfg : Config) : JSString :=
  match loadKey cfg (js "GEMINI_MODEL_ID") with
  | Some v => v
  | None => js "gemini-2.5-flash"
  end.

Definition SERPAPI_KEY_value (cfg : Config) : option JSString :=
  match loadKey cfg (js "SERPAPI_KEY") with
  | Some v => Some v
  | None => loadKey cfg (js "SERPAPI")
  end.

End LegalAssistant.

(** ** LegalRightsGuide.js *)

Module LegalRightsGuide.

(** An entry of [ipc.json] or [pwdva.json] once tagged with its source. *)
Record Law : Type := mkLaw {
  title : JSString;
  section : JSString;
  description : JSString;
  source : JSString
}.

Record Guide : Type := mkGuide {
  query : JSString;
  results : list Law;
  showSuggestions : bool
}.

Section Search.

(** String.prototype.toLowerCase follows the Unicode case mappings of the
    engine: it is a parameter here. *)
Variable toLowerCase : JSString -> JSString.

(** The two data files are not part of the screen: they are parameters. *)
Variables ipcData pwdvaData : list Law.

(** [{ ...r, source: s }] *)
Definition tag (s : JSString) (r : Law) : Law :=
  mkLaw (title r) (section r) (description r) s.

Definition allData : list Law :=
  map (tag (js "IPC")) ipcData ++ map (tag (js "PWDVA")) pwdvaData.

Definition handleSearch (st : Guide) : Guide :=
  let lowerQuery := toLowerCase (query st) in
  let filtered :=
    filter
      (fun item =>
         includes (toLowerCase (title item)) lowerQuery
         || includes (toLowerCase (description item)) lowerQuery)
      allData in
  mkGuide (query st) filtered false.

(** [Set.prototype.add]: a set keeps its elements in the order of their
    first insertion. *)
Definition set_add (acc : list JSString) (x : JSString) : list JSString :=
  if existsb (str_eqb x) acc then acc else acc ++ [x].

Definition allKeywords : list JSString :=
  fold_left (fun acc item => set_add acc (title item)) allData [].

Definition handleKeywordPress (keyword : JSString) (st : Guide) : Guide :=
  mkGuide keyword (results st) false.

(** The handler of [onChangeText]. *)
Definition onChangeText (text : JSString) (st : Guide) : Guide :=
  mkGuide text (results st) true.

Definition filteredSuggestions (st : Guide) : list JSString :=
  filter
    (fun kw =>
       includes (toLowerCase kw) (toLowerCase (query st))
       && (0 <? length (query st))%nat)
    allKeywords.

(** The list of suggestions is rendered under this condition. *)
Definition suggestionsShown (st : Guide) : bool :=
  showSuggestions st && (0 <? length (filteredSuggestions st))%nat.

End Search.

End LegalRightsGuide.

(** ** Notions of the specification *)

Import LegalAssistant.

(** [m] is [pat] up to the case of its letters. *)
Definition ci_equal (pat m : JSString) : Prop :=
  Forall2 (fun p c => canonicalize p = canonicalize c) pat m.

(** [pat] occurs in [text], in any letter case. *)
Definition occurs_ci (pat text : JSString) : Prop :=
  exists pre m post, text = pre ++ m ++ post /\ ci_equal pat m.

(** [pat] occurs in [text] as it is written. *)
Definition occurs (pat text : JSString) : Prop :=
  exists pre post, text = pre ++ pat ++ post.

(** The terminator of a span as the specification words it: the end of
    the text, or one of the six labels followed by a colon. *)
Definition spec_terminator (text : JSString) : bool :=
  is_empty text
  || existsb
       (fun L =>
          match match_literal (L ++ js ":") text with
          | Some _ => true
          | None => false
          end)
       sections.

Fixpoint spec_span_body (text : JSString) : JSString :=
  if spec_terminator text then []
  else match text with
       | [] => []
       | c :: text' => c :: spec_span_body text'
       end.

(** The span of label [L] as the specification words it: from the first
    occurrence of [L] followed by a colon up to the next terminator. *)
Fixpoint spec_span (L text : JSString) : option JSString :=
  match match_literal (L ++ js ":") text with
  | Some (label, rest) => Some (label ++ spec_span_body rest)
  | None =>
      match text with
      | [] => None
      | _ :: text' => spec_span L text'
      end
  end.

(** The content of a matched span as the specification words it: the span
    without its leading label and colon, trimmed. *)
Definition spec_content (L m0 : JSString) : JSString :=
  trim (skipn (length (L ++ js ":")) m0).

(** [needle] is contained in [hay] as a substring, the case of letters
    set aside by the lower-case mapping [lower]. *)
Definition contains_ci (lower : JSString -> JSString) (hay needle : JSString)
  : Prop :=
  occurs (lower needle) (lower hay).

(** A generation call of a send failed: no key was configured, so that the
    call throws at once, or a generation request of the run was rejected. *)
Definition generation_call_failed (services : Services) (w : Screen) : Prop :=
  genAI services = false \/
  exists before prompt after,
    trace (snd (handleSend services w))
    = before ++ GenerateContent prompt :: after /\
    generateContent services before prompt = None.

(** ** Auxiliary definitions of the proofs *)

(** [pat] may start at the head of [s]: it agrees with [s] as far as [s]
    goes. *)
Fixpoint may_start (pat s : JSString) : bool :=
  match pat, s with
  | [], _ => true
  | _ :: _, [] => true
  | p :: pat', c :: s' => (p =? c) && may_start pat' s'
  end.

(** [pat] may start at no position of [a]. *)
Fixpoint never_starts (pat a : JSString) : bool :=
  match a with
  | [] => true
  | _ :: a' => negb (may_start pat a) && never_starts pat a'
  end.

(** Whatever follows [a], [pat] starts at no position of [a]. *)
Definition no_start (pat a : JSString) : Prop :=
  forall i b, (i < length a)%nat -> startsWith pat (skipn i (a ++ b)) = false.

(** The three pieces of the template around its two placeholders. *)
Definition template_head : JSString := firstn 510 FIR_TEMPLATE.
Definition template_middle : JSString := firstn 68 (skipn 521 FIR_TEMPLATE).
Definition template_tail : JSString := skipn 597 FIR_TEMPLATE.

(** A string that does not begin with white space. *)
Definition head_ok (s : JSString) : Prop :=
  match s with
  | [] => True
  | c :: _ => isWhiteSpace c = false
  end.

(** An output that tells the user how the generation of the FIR ended:
    the share sheet for the PDF, or an alert. *)
Definition feedback (o : Output) : Prop :=
  match o with
  | PrintToFile _ => False
  | ShareFile _ mimeType => mimeType = js "application/pdf"
  | AlertShown _ _ => True
  end.

(* ================================================================== *)
(** * Part II: properties *)
(* ================================================================== *)

(** ** Strings *)

Lemma startsWith_app (pat rest : JSString) : startsWith pat (pat ++ rest) = true.
Proof.
  induction pat as [|p pat IH]; simpl; [reflexivity|].
  now rewrite N.eqb_refl, IH.
Qed.

Lemma startsWith_inv (pat s : JSString) :
  startsWith pat s = true -> exists rest, s = pat ++ rest.
Proof.
  revert s; induction pat as [|p pat IH]; intros s H.
  - now exists s.
  - destruct s as [|c s]; simpl in H; [discriminate|].
    apply andb_true_iff in H as [Hpc Hrest].
    apply N.eqb_eq in Hpc; subst c.
    destruct (IH _ Hrest) as [rest ->].
    now exists rest.
Qed.

Lemma indexOf_Some (pat s : JSString) (i : nat) :
  indexOf pat s = Some i ->
  exists post, s = firstn i s ++ pat ++ post /\ length (firstn i s) = i.
Proof.
  revert i; induction s as [|c s IH]; intros i H; simpl in H.
  - destruct (startsWith pat []) eqn:E; [|discriminate].
    injection H as <-.
    destruct (startsWith_inv _ _ E) as [rest Hrest].
    exists rest; simpl; auto.
  - destruct (startsWith pat (c :: s)) eqn:E.
    + injection H as <-.
      destruct (startsWith_inv _ _ E) as [rest Hrest].
      exists rest; simpl; auto.
    + destruct (indexOf pat s) as [j|] eqn:Ej; [|discriminate].
      injection H as <-.
      destruct (IH j eq_refl) as [post [Hs Hlen]].
      exists post; simpl; split; [now rewrite <- Hs | now rewrite Hlen].
Qed.

Lemma indexOf_None (pat s : JSString) :
  indexOf pat s = None -> ~ occurs pat s.
Proof.
  induction s as [|c s IH]; simpl; intros H [pre [post Heq]].
  - destruct (startsWith pat []) eqn:E; [discriminate|].
    destruct pre; [|discriminate].
    simpl in Heq. rewrite Heq, startsWith_app in E. discriminate.
  - destruct (startsWith pat (c :: s)) eqn:E; [discriminate|].
    destruct (indexOf pat s) eqn:Ei; [discriminate|].
    destruct pre as [|c' pre].
    + simpl in Heq. rewrite Heq, startsWith_app in E. discriminate.
    + injection Heq as _ Heq. apply IH; [reflexivity|].
      now exists pre, post.
Qed.

(** [includes] decides occurrence. *)
Lemma includes_occurs (s pat : JSString) :
  includes s pat = true <-> occurs pat s.
Proof.
  unfold includes. destruct (indexOf pat s) as [i|] eqn:E; split; intro H.
  - destruct (indexOf_Some _ _ _ E) as [post [Hs _]].
    now exists (firstn i s), post.
  - reflexivity.
  - discriminate.
  - now apply indexOf_None in E.
Qed.

Lemma includes_empty (s : JSString) : includes s [] = true.
Proof. apply includes_occurs. now exists [], s. Qed.

Lemma trimStart_blank (s : JSString) :
  (forall c, In c s -> isWhiteSpace c = true) -> trimStart s = [].
Proof.
  induction s as [|c s IH]; intro H; simpl; [reflexivity|].
  rewrite (H c (or_introl eq_refl)).
  apply IH. intros d Hd. apply H. now right.
Qed.

Lemma trim_blank (s : JSString) :
  (forall c, In c s -> isWhiteSpace c = true) -> trim s = [].
Proof.
  intro H. unfold trim, trimEnd. now rewrite (trimStart_blank s H).
Qed.

Lemma join_empty_concat (blocks : list JSString) : join [] blocks = List.concat blocks.
Proof.
  induction blocks as [|b [|b' blocks] IH]; simpl in *.
  - reflexivity.
  - now rewrite app_nil_r.
  - now rewrite IH.
Qed.

(** ** The pattern of a label *)

Lemma ci_equal_refl (s : JSString) : ci_equal s s.
Proof. induction s; constructor; auto. Qed.

Lemma match_literal_sound (pat text m rest : JSString) :
  match_literal pat text = Some (m, rest) ->
  text = m ++ rest /\ ci_equal pat m.
Proof.
  revert text m rest.
  induction pat as [|p pat IH]; intros text m rest H; simpl in H.
  - injection H as <- <-. split; [reflexivity | constructor].
  - destruct text as [|c text]; [discriminate|].
    destruct (canonicalize p =? canonicalize c) eqn:Epc; [|discriminate].
    destruct (match_literal pat text) as [[m' rest']|] eqn:Em; [|discriminate].
    injection H as <- <-.
    destruct (IH _ _ _ Em) as [-> Hci].
    split; [reflexivity|].
    constructor; [now apply N.eqb_eq | exact Hci].
Qed.

Lemma match_literal_complete (pat m rest : JSString) :
  ci_equal pat m -> match_literal pat (m ++ rest) = Some (m, rest).
Proof.
  induction 1 as [|p c pat m Hpc _ IH]; simpl; [reflexivity|].
  apply N.eqb_eq in Hpc. now rewrite Hpc, IH.
Qed.

Lemma match_literal_None (pat text : JSString) :
  match_literal pat text = None <->
  ~ exists m rest, text = m ++ rest /\ ci_equal pat m.
Proof.
  split.
  - intros H [m [rest [-> Hci]]].
    rewrite (match_literal_complete _ _ rest Hci) in H. discriminate.
  - intro H. destruct (match_literal pat text) as [[m rest]|] eqn:E; [|reflexivity].
    exfalso. apply H. exists m, rest. now apply match_literal_sound.
Qed.

(** The alternatives as the pattern gives them: the colon belongs to the
    last label only. *)
Lemma lookahead_alternatives_eq :
  lookahead_alternatives =
    [ Literal (js "Complainant Details"); Literal (js "Incident Details");
      Literal (js "Accused Details"); Literal (js "Witness Details");
      Literal (js "Evidence Details"); Literal (js "IPC Sections:");
      EndOfInput ].
Proof. reflexivity. Qed.

Lemma lookahead_end : lookahead [] = true.
Proof. reflexivity. Qed.

Lemma lookahead_literal (a m rest : JSString) :
  In (Literal a) lookahead_alternatives ->
  ci_equal a m -> lookahead (m ++ rest) = true.
Proof.
  intros Hin Hci. unfold lookahead. apply existsb_exists.
  exists (Literal a). split; [exact Hin|].
  simpl. now rewrite (match_literal_complete _ _ rest Hci).
Qed.

(** Where the lookahead holds: at the end of the text, and where one of
    the literal alternatives stands in any letter case. *)
Lemma lookahead_iff (text : JSString) :
  lookahead text = true <->
  text = [] \/
  exists a m rest,
    In (Literal a) lookahead_alternatives /\ text = m ++ rest /\ ci_equal a m.
Proof.
  split.
  - unfold lookahead. rewrite existsb_exists.
    intros [[a|] [Hin Hm]]; simpl in Hm.
    + right.
      destruct (match_literal a text) as [[m rest]|] eqn:E; [|discriminate].
      apply match_literal_sound in E as [Heq Hci].
      now exists a, m, rest.
    + left. now destruct text.
  - intros [->|[a [m [rest [Hin [-> Hci]]]]]].
    + apply lookahead_end.
    + now apply (lookahead_literal a).
Qed.

Lemma lazy_any_eq (text : JSString) :
  lazy_any text =
    if lookahead text then Some []
    else match text with
         | [] => None
         | c :: text' =>
             match lazy_any text' with
             | Some body => Some (c :: body)
             | None => None
             end
         end.
Proof. destruct text; reflexivity. Qed.

(** The lazy run always ends: at the first position where the lookahead
    holds, the end of the text at the latest. *)
Lemma lazy_any_spec (text : JSString) :
  exists body tail,
    lazy_any text = Some body /\ text = body ++ tail /\
    lookahead tail = true /\
    forall k, (k < length body)%nat -> lookahead (skipn k text) = false.
Proof.
  induction text as [|c text IH]; rewrite lazy_any_eq.
  - rewrite lookahead_end. exists [], []. repeat split; auto.
    simpl; intros; lia.
  - destruct (lookahead (c :: text)) eqn:E.
    + exists [], (c :: text). repeat split; auto. simpl; intros; lia.
    + destruct IH as [body [tail [-> [-> [Htail Hmin]]]]].
      exists (c :: body), tail. repeat split; auto.
      intros [|k] Hk; simpl in *; [exact E | apply Hmin; lia].
Qed.

Lemma match_here_Some (L text label rest : JSString) :
  match_literal (L ++ js ":") text = Some (label, rest) ->
  exists body tail,
    match_here L text = Some (label ++ body) /\ rest = body ++ tail /\
    lookahead tail = true /\
    forall k, (k < length body)%nat -> lookahead (skipn k rest) = false.
Proof.
  intro H. unfold match_here. rewrite H.
  destruct (lazy_any_spec rest) as [body [tail [E [Hrest [Htail Hmin]]]]].
  rewrite E. now exists body, tail.
Qed.

Lemma match_here_None (L text : JSString) :
  match_here L text = None <-> match_literal (L ++ js ":") text = None.
Proof.
  unfold match_here.
  destruct (match_literal (L ++ js ":") text) as [[label rest]|] eqn:E.
  - destruct (lazy_any_spec rest) as [body [tail [-> _]]].
    split; discriminate.
  - tauto.
Qed.

Lemma match_here_occurs (L text m : JSString) :
  match_here L text = Some m -> occurs_ci (L ++ js ":") text.
Proof.
  intro H.
  destruct (match_literal (L ++ js ":") text) as [[label rest]|] eqn:E.
  - apply match_literal_sound in E as [Heq Hci]. now exists [], label, rest.
  - apply match_here_None in E. congruence.
Qed.

Lemma occurs_ci_cons (pat text : JSString) (c : char16) :
  occurs_ci pat text -> occurs_ci pat (c :: text).
Proof.
  intros [pre [m [post [-> Hci]]]]. now exists (c :: pre), m, post.
Qed.

Lemma regex_search_Some_occurs (L text : JSString) (i : nat) (m : JSString) :
  regex_search L text = Some (i, m) -> occurs_ci (L ++ js ":") text.
Proof.
  revert i; induction text as [|c text IH]; intros i H; simpl in H.
  - destruct (match_here L []) eqn:E; [|discriminate].
    now apply match_here_occurs in E.
  - destruct (match_here L (c :: text)) eqn:E.
    + now apply match_here_occurs in E.
    + destruct (regex_search L text) as [[j m']|]; [|discriminate].
      injection H as _ <-.
      apply occurs_ci_cons. now apply (IH j).
Qed.

(** No match exactly when the label followed by a colon occurs nowhere,
    whatever the case of its letters. *)
Lemma regex_search_None (L text : JSString) :
  regex_search L text = None <-> ~ occurs_ci (L ++ js ":") text.
Proof.
  split.
  - induction text as [|c text IH]; simpl; intros H [pre [m [post [Heq Hci]]]].
    + destruct (match_here L []) eqn:E; [discriminate|].
      apply match_here_None in E.
      destruct pre; [|discriminate]. simpl in Heq.
      rewrite Heq, (match_literal_complete _ _ post Hci) in E. discriminate.
    + destruct (match_here L (c :: text)) eqn:E; [discriminate|].
      apply match_here_None in E.
      destruct (regex_search L text) as [[j m']|]; [discriminate|].
      destruct pre as [|c' pre]; simpl in Heq.
      * rewrite Heq, (match_literal_complete _ _ post Hci) in E. discriminate.
      * injection Heq as _ Heq. apply IH; [reflexivity|].
        now exists pre, m, post.
  - intro H. destruct (regex_search L text) as [[i m]|] eqn:E; [|reflexivity].
    exfalso. apply H. now apply (regex_search_Some_occurs _ _ i m).
Qed.

Lemma string_match_None (L text : JSString) :
  string_match text L = None <-> ~ occurs_ci (L ++ js ":") text.
Proof.
  unfold string_match. rewrite <- regex_search_None.
  destruct (regex_search L text); simpl; split; congruence.
Qed.

(** The match starts at the first occurrence of the label followed by a
    colon and runs to the first position after it where the lookahead
    holds. *)
Lemma regex_search_first (L pre hd post : JSString) :
  ci_equal (L ++ js ":") hd ->
  (forall pre' hd' post',
      pre ++ hd ++ post = pre' ++ hd' ++ post' ->
      ci_equal (L ++ js ":") hd' -> (length pre <= length pre')%nat) ->
  exists body tail,
    regex_search L (pre ++ hd ++ post) = Some (length pre, hd ++ body) /\
    post = body ++ tail /\ lookahead tail = true /\
    forall k, (k < length body)%nat -> lookahead (skipn k post) = false.
Proof.
  intros Hci. induction pre as [|c pre IH]; intro Hfirst.
  - destruct (match_here_Some L (hd ++ post) hd post
                (match_literal_complete _ _ post Hci))
      as [body [tail [E [Hpost [Htail Hmin]]]]].
    exists body, tail. repeat split; auto.
    simpl app. destruct (hd ++ post); simpl; now rewrite E.
  - assert (E : match_here L ((c :: pre) ++ hd ++ post) = None).
    { apply match_here_None, match_literal_None.
      intros [m [rest [Heq Hm]]].
      specialize (Hfirst [] m rest Heq Hm). simpl in Hfirst. lia. }
    destruct IH as [body [tail [Es [Hpost [Htail Hmin]]]]].
    { intros pre' hd' post' Heq Hm.
      specialize (Hfirst (c :: pre') hd' post').
      simpl in Hfirst. rewrite Heq in Hfirst.
      specialize (Hfirst eq_refl Hm). lia. }
    exists body, tail. repeat split; auto.
    simpl app in *. simpl. now rewrite E, Es.
Qed.

Lemma skipn_length_app (a b : JSString) : skipn (length a) (a ++ b) = b.
Proof. induction a; simpl; auto. Qed.

Lemma app_prefix_of (a b body tail : JSString) :
  a ++ b = body ++ tail -> (length body <= length a)%nat ->
  exists rest, a = body ++ rest.
Proof.
  revert a; induction body as [|c body IH]; intros a Heq Hlen.
  - now exists a.
  - destruct a as [|c' a]; simpl in *; [lia|].
    injection Heq as -> Heq.
    destruct (IH a Heq) as [rest ->]; [lia|]. now exists rest.
Qed.

Lemma extractContent_found (L contentText : JSString) (i : nat) (m0 : JSString) :
  regex_search L contentText = Some (i, m0) ->
  extractContent L contentText = trim (replace m0 (L ++ js ":") []).
Proof.
  intro H. unfold extractContent, string_match. now rewrite H.
Qed.

Lemma extractContent_missing (L contentText : JSString) :
  ~ occurs_ci (L ++ js ":") contentText ->
  extractContent L contentText = NOT_PROVIDED.
Proof.
  intro H. apply string_match_None in H.
  unfold extractContent. now rewrite H.
Qed.

(** ** Field extraction *)

(** C1. Whatever the input text, the extraction yields exactly one section
    per label, in the canonical order of [sections]; a label that has no
    match is present with the content "Information not provided"; and the
    markup is the concatenation of the blocks of these sections in that
    order. *)
Theorem extraction_one_section_per_label (contentText : JSString) :
  map fst (extractedSections contentText) = sections /\
  length (extractedSections contentText) = 6%nat /\
  (forall L, In L sections ->
     ~ occurs_ci (L ++ js ":") contentText ->
     In (L, NOT_PROVIDED) (extractedSections contentText)) /\
  structuredContent contentText =
    List.concat
      (map (fun p => sectionBlock (fst p) (snd p))
         (extractedSections contentText)).
Proof.
  unfold extractedSections, structuredContent.
  split; [|split; [|split]].
  - rewrite map_map. apply map_id.
  - now rewrite length_map.
  - intros L HL Hno. apply in_map_iff. exists L. split; [|exact HL].
    now rewrite (extractContent_missing L contentText Hno).
  - now rewrite join_empty_concat, map_map.
Qed.

(** The empty text for C1: "Witness Details:" does not occur in it, and its
    section is there with the placeholder. *)
Lemma extraction_one_section_per_label_witness :
  In (js "Witness Details", NOT_PROVIDED) (extractedSections []).
Proof.
  apply (proj1 (proj2 (proj2 (extraction_one_section_per_label [])))).
  - simpl. auto 10.
  - apply string_match_None. reflexivity.
Defined.

(** C4. Extraction is a total function of the text.  On the empty text, and
    on every text in which no label followed by a colon occurs in any letter
    case (so in particular on every text that holds no label name at all),
    each of the six sections has the content "Information not provided". *)
Theorem extraction_never_fails :
  extractedSections [] = map (fun L => (L, NOT_PROVIDED)) sections /\
  forall contentText,
    (forall L, In L sections -> ~ occurs_ci (L ++ js ":") contentText) ->
    extractedSections contentText = map (fun L => (L, NOT_PROVIDED)) sections.
Proof.
  split; [reflexivity|].
  intros contentText Hno. unfold extractedSections.
  apply map_ext_in. intros L HL.
  now rewrite (extractContent_missing L contentText (Hno L HL)).
Qed.

Lemma not_occurs_by_search (L contentText : JSString) :
  regex_search L contentText = None -> ~ occurs_ci (L ++ js ":") contentText.
Proof. apply regex_search_None. Qed.

(** A text without any label for C4. *)
Lemma extraction_never_fails_witness :
  extractedSections (js "She asked for help twice.")
  = map (fun L => (L, NOT_PROVIDED)) sections.
Proof.
  apply (proj2 extraction_never_fails).
  intros L HL. apply not_occurs_by_search.
  simpl in HL.
  repeat (destruct HL as [<- | HL]; [vm_compute; reflexivity|]).
  destruct HL.
Defined.

(** C6. Let the first occurrence of the label [L] followed by a colon be
    [hd], and let the literal text "Witness Details:" occur after it, with
    [mid] in between.  Then the span matched for [L] is [hd] followed by a
    prefix of [mid]: it stops before that occurrence, the content of [L] is
    computed from that span alone, and the span reaches exactly up to the
    occurrence when no position of [mid] satisfies the lookahead. *)
Theorem truncated_at_embedded_label (L pre hd mid rest : JSString) :
  ci_equal (L ++ js ":") hd ->
  (forall pre' hd' post',
      pre ++ hd ++ mid ++ js "Witness Details:" ++ rest = pre' ++ hd' ++ post' ->
      ci_equal (L ++ js ":") hd' -> (length pre <= length pre')%nat) ->
  let contentText := pre ++ hd ++ mid ++ js "Witness Details:" ++ rest in
  exists body cut,
    string_match contentText L = Some (hd ++ body) /\
    mid = body ++ cut /\
    extractContent L contentText = trim (replace (hd ++ body) (L ++ js ":") []) /\
    ((forall k, (k < length mid)%nat ->
        lookahead (skipn k (mid ++ js "Witness Details:" ++ rest)) = false) ->
     body = mid).
Proof.
  intros Hci Hfirst contentText.
  destruct (regex_search_first L pre hd _ Hci Hfirst)
    as [body [tail [Es [Hpost [Htail Hmin]]]]].
  assert (Hstop : lookahead (js "Witness Details:" ++ rest) = true).
  { apply (lookahead_literal (js "Witness Details") (js "Witness Details")
             (js ":" ++ rest)).
    - rewrite lookahead_alternatives_eq. simpl. auto 10.
    - apply ci_equal_refl. }
  assert (Hlen : (length body <= length mid)%nat).
  { destruct (Nat.le_gt_cases (length body) (length mid)) as [H|H]; [exact H|].
    specialize (Hmin (length mid) H).
    rewrite skipn_length_app in Hmin. congruence. }
  destruct (app_prefix_of _ _ _ _ Hpost Hlen) as [cut Hmid].
  exists body, cut. split; [|split; [|split]].
  - unfold string_match, contentText. now rewrite Es.
  - exact Hmid.
  - now apply (extractContent_found L contentText (length pre)).
  - intro Hnone.
    destruct cut as [|c cut]; [now rewrite app_nil_r in Hmid|].
    exfalso.
    assert (Hk : (length body < length mid)%nat).
    { rewrite Hmid, length_app. simpl. lia. }
    specialize (Hnone (length body) Hk).
    rewrite Hpost, skipn_length_app in Hnone. congruence.
Qed.

(** An incident description that quotes "Witness Details:" for C6: the
    content of "Incident Details" stops before the quote. *)
Lemma truncated_at_embedded_label_witness :
  exists body cut,
    string_match
      (js "Incident Details: at home, Witness Details: a neighbour")
      (js "Incident Details")
    = Some (js "Incident Details:" ++ body) /\
    js " at home, " = body ++ cut /\
    extractContent (js "Incident Details")
      (js "Incident Details: at home, Witness Details: a neighbour")
    = trim (replace (js "Incident Details:" ++ body)
              (js "Incident Details" ++ js ":") []) /\
    ((forall k, (k < length (js " at home, "))%nat ->
        lookahead
          (skipn k (js " at home, " ++ js "Witness Details:" ++ js " a neighbour"))
        = false) ->
     body = js " at home, ").
Proof.
  apply (truncated_at_embedded_label (js "Incident Details") []
           (js "Incident Details:") (js " at home, ") (js " a neighbour")).
  - apply ci_equal_refl.
  - intros pre' hd' post' _ _. simpl. lia.
Defined.

Lemma replace_leading (pat body : JSString) :
  replace (pat ++ body) pat [] = body.
Proof.
  unfold replace.
  assert (E : indexOf pat (pat ++ body) = Some 0%nat).
  { destruct (pat ++ body) eqn:Es; simpl; rewrite <- Es, startsWith_app;
      reflexivity. }
  rewrite E. simpl. apply skipn_length_app.
Qed.

(** When the label stands in the text in its canonical case, the content is
    what follows it in the span, trimmed. *)
Lemma extractContent_same_case (L pre post : JSString) :
  (forall pre' hd' post',
      pre ++ (L ++ js ":") ++ post = pre' ++ hd' ++ post' ->
      ci_equal (L ++ js ":") hd' -> (length pre <= length pre')%nat) ->
  exists body tail,
    post = body ++ tail /\ lookahead tail = true /\
    extractContent L (pre ++ (L ++ js ":") ++ post) = trim body /\
    extractContent L (pre ++ (L ++ js ":") ++ post)
    = spec_content L ((L ++ js ":") ++ body).
Proof.
  intro Hfirst.
  destruct (regex_search_first L pre (L ++ js ":") post (ci_equal_refl _) Hfirst)
    as [body [tail [Es [Hpost [Htail _]]]]].
  exists body, tail. split; [exact Hpost|]. split; [exact Htail|].
  rewrite (extractContent_found _ _ _ _ Es), replace_leading.
  unfold spec_content. now rewrite skipn_length_app.
Qed.

(** C2. The text "Incident Details: see Witness Details below" holds no
    label followed by a colon after "Incident Details:", so the span worded
    by the specification runs to the end of the text; the pattern of the
    code stops at the bare name "Witness Details", and the content is "see"
    alone. *)
Theorem bare_label_ends_span :
  let contentText := js "Incident Details: see Witness Details below" in
  spec_span (js "Incident Details") contentText = Some contentText /\
  string_match contentText (js "Incident Details")
  = Some (js "Incident Details: see ") /\
  extractContent (js "Incident Details") contentText = js "see" /\
  extractContent (js "Incident Details") contentText
  <> js "see Witness Details below".
Proof.
  cbv zeta. split; [|split; [|split]]; try (vm_compute; reflexivity).
  vm_compute. discriminate.
Qed.

(** C3. In "complainant details: Jane Doe" the label is matched although
    its case differs from the canonical one, but the label is not stripped
    from the content: the content is the whole span, not "Jane Doe". *)
Theorem lower_case_label_not_stripped :
  let contentText := js "complainant details: Jane Doe" in
  string_match contentText (js "Complainant Details") = Some contentText /\
  spec_content (js "Complainant Details") contentText = js "Jane Doe" /\
  extractContent (js "Complainant Details") contentText = contentText /\
  extractContent (js "Complainant Details") contentText
  <> spec_content (js "Complainant Details") contentText.
Proof.
  cbv zeta. split; [|split; [|split]]; try (vm_compute; reflexivity).
  vm_compute. discriminate.
Qed.

(** ** Document assembly *)

Lemma template_pieces :
  FIR_TEMPLATE
  = template_head ++ js "{{CONTENT}}" ++ template_middle ++ js "{{DATE}}"
      ++ template_tail.
Proof. vm_compute. reflexivity. Qed.

Lemma may_start_false (pat s b : JSString) :
  may_start pat s = false -> startsWith pat (s ++ b) = false.
Proof.
  revert s; induction pat as [|p pat IH]; intros s H; [discriminate|].
  destruct s as [|c s]; [discriminate|]. simpl in *.
  apply andb_false_iff in H as [H|H].
  - now rewrite H.
  - rewrite (IH _ H). apply andb_false_r.
Qed.

Lemma never_starts_sound (pat a : JSString) :
  never_starts pat a = true -> no_start pat a.
Proof.
  induction a as [|c a IH]; intros H i b Hi; simpl in Hi; [lia|].
  cbn [never_starts] in H. apply andb_true_iff in H as [H0 H].
  destruct i as [|i].
  - apply (may_start_false pat (c :: a) b). now apply negb_true_iff.
  - simpl. apply IH; [exact H | lia].
Qed.

Lemma no_start_absent (p : char16) (pat a : JSString) :
  ~ In p a -> no_start (p :: pat) a.
Proof.
  induction a as [|c a IH]; intros H i b Hi; simpl in Hi; [lia|].
  destruct i as [|i]; simpl.
  - destruct (p =? c) eqn:E; [|reflexivity].
    apply N.eqb_eq in E. exfalso. apply H. now left.
  - apply IH; [|lia]. intro Hin. apply H. now right.
Qed.

Lemma no_start_app (pat a1 a2 : JSString) :
  no_start pat a1 -> no_start pat a2 -> no_start pat (a1 ++ a2).
Proof.
  intros H1 H2 i b Hi. rewrite <- app_assoc.
  destruct (Nat.lt_ge_cases i (length a1)) as [Hlt|Hge].
  - now apply H1.
  - rewrite skipn_app, (skipn_all2 a1) by exact Hge. simpl.
    apply H2. rewrite length_app in Hi. lia.
Qed.

Lemma indexOf_here (pat b : JSString) : indexOf pat (pat ++ b) = Some 0%nat.
Proof.
  destruct (pat ++ b) eqn:Es; simpl; rewrite <- Es, startsWith_app; reflexivity.
Qed.

Lemma indexOf_no_start (pat a b : JSString) :
  no_start pat a ->
  indexOf pat (a ++ b) = option_map (Nat.add (length a)) (indexOf pat b).
Proof.
  induction a as [|c a IH]; intro H.
  - simpl. now destruct (indexOf pat b).
  - assert (H0 : startsWith pat (c :: a ++ b) = false).
    { apply (H 0%nat b). simpl. lia. }
    cbn [app indexOf length]. rewrite H0, IH.
    + now destruct (indexOf pat b).
    + intros i b' Hi. apply (H (S i) b'). simpl. lia.
Qed.

Lemma getSubstitution_plain (matched preceding following template : JSString) :
  ~ In 36 template ->
  getSubstitution matched preceding following template = template.
Proof.
  induction template as [|c template IH]; intro H; [reflexivity|].
  assert (Hc : (c =? 36) = false).
  { apply N.eqb_neq. intro E. apply H. now left. }
  cbn [getSubstitution]. rewrite Hc. f_equal.
  apply IH. intro Hin. apply H. now right.
Qed.

(** Replacement at the first occurrence by a text without dollar sign. *)
Lemma replace_at (a pat b replacement : JSString) :
  no_start pat a -> ~ In 36 replacement ->
  replace (a ++ pat ++ b) pat replacement = a ++ replacement ++ b.
Proof.
  intros Ha Hrep. unfold replace.
  rewrite (indexOf_no_start pat a (pat ++ b) Ha), indexOf_here. cbn [option_map].
  rewrite Nat.add_0_r, getSubstitution_plain by exact Hrep.
  rewrite firstn_app, Nat.sub_diag, firstn_all. cbn [firstn].
  rewrite app_nil_r. f_equal. f_equal.
  rewrite skipn_app, skipn_all2 by lia.
  replace (length a + length pat - length a)%nat with (length pat) by lia.
  simpl. apply skipn_length_app.
Qed.

Lemma In_trimStart (c : char16) (s : JSString) : In c (trimStart s) -> In c s.
Proof.
  induction s as [|d s IH]; simpl; [auto|].
  destruct (isWhiteSpace d); auto.
Qed.

Lemma In_trim (c : char16) (s : JSString) : In c (trim s) -> In c s.
Proof.
  unfold trim, trimEnd. intro H.
  apply In_trimStart. apply in_rev. apply In_trimStart. now apply in_rev in H.
Qed.

Lemma In_replace_empty (c : char16) (s pat : JSString) :
  In c (replace s pat []) -> In c s.
Proof.
  unfold replace. destruct (indexOf pat s) as [pos|]; [|auto].
  cbn [getSubstitution app]. intro H.
  apply in_app_or in H as [H|H].
  - rewrite <- (firstn_skipn pos s). apply in_or_app. now left.
  - rewrite <- (firstn_skipn (pos + length pat) s). apply in_or_app. now right.
Qed.

Lemma match_here_prefix (L text m : JSString) :
  match_here L text = Some m -> exists post, text = m ++ post.
Proof.
  intro H.
  destruct (match_literal (L ++ js ":") text) as [[label rest]|] eqn:E.
  - destruct (match_here_Some _ _ _ _ E) as [body [tail [Em [Hrest _]]]].
    apply match_literal_sound in E as [-> _].
    rewrite Em in H. injection H as <-.
    exists tail. now rewrite Hrest, app_assoc.
  - apply match_here_None in E. congruence.
Qed.

(** The matched span is a piece of the text. *)
Lemma regex_search_substring (L text : JSString) (i : nat) (m : JSString) :
  regex_search L text = Some (i, m) ->
  exists post, text = firstn i text ++ m ++ post /\ length (firstn i text) = i.
Proof.
  revert i; induction text as [|c text IH]; intros i H; simpl in H.
  - destruct (match_here L []) eqn:E; [|discriminate].
    injection H as <- <-. destruct (match_here_prefix _ _ _ E) as [post Hp].
    now exists post.
  - destruct (match_here L (c :: text)) eqn:E.
    + injection H as <- <-. destruct (match_here_prefix _ _ _ E) as [post Hp].
      now exists post.
    + destruct (regex_search L text) as [[j m']|] eqn:Es; [|discriminate].
      injection H as <- <-.
      destruct (IH j eq_refl) as [post [Hp Hlen]].
      exists post. simpl. split; [now rewrite <- Hp | now rewrite Hlen].
Qed.

(** A content holds only code units of the text or of the placeholder. *)
Lemma In_extractContent (c : char16) (L contentText : JSString) :
  In c (extractContent L contentText) ->
  In c contentText \/ In c NOT_PROVIDED.
Proof.
  unfold extractContent, string_match.
  destruct (regex_search L contentText) as [[i m]|] eqn:E; cbn [option_map snd].
  - intro H. left. apply In_trim, In_replace_empty in H.
    destruct (regex_search_substring _ _ _ _ E) as [post [Heq _]].
    rewrite Heq. apply in_or_app. right. apply in_or_app. now left.
  - auto.
Qed.

Lemma In_sectionBlock (c : char16) (L content : JSString) :
  In c (sectionBlock L content) ->
  In c (sectionBlock L NOT_PROVIDED) \/ In c content.
Proof.
  unfold sectionBlock. intro H.
  apply in_app_or in H as [H|H]; [left; apply in_or_app; now left|].
  apply in_app_or in H as [H|H];
    [left; apply in_or_app; right; apply in_or_app; now left|].
  apply in_app_or in H as [H|H];
    [left; do 2 (apply in_or_app; right); apply in_or_app; now left|].
  apply in_app_or in H as [H|H]; [now right|].
  left. do 4 (apply in_or_app; right). exact H.
Qed.

Lemma In_structuredContent (c : char16) (contentText : JSString) :
  In c (structuredContent contentText) ->
  In c contentText \/ In c (structuredContent []).
Proof.
  unfold structuredContent. rewrite !join_empty_concat. intro H.
  apply in_concat in H as [block [Hblock Hc]].
  apply in_map_iff in Hblock as [L [<- HL]].
  apply In_sectionBlock in Hc as [Hc|Hc].
  - right. apply in_concat. exists (sectionBlock L NOT_PROVIDED).
    split; [|exact Hc]. apply in_map_iff. exists L. split; [|exact HL].
    f_equal. unfold extractContent, string_match.
    now rewrite (proj2 (regex_search_None L [])) by
      (intros [pre [m [post [Heq Hci]]]];
       destruct pre; [|discriminate]; destruct m; [|discriminate];
       destruct L; inversion Hci).
  - apply In_extractContent in Hc as [Hc|Hc]; [now left|].
    right. apply in_concat. exists (sectionBlock L NOT_PROVIDED).
    split.
    + apply in_map_iff. exists L. split; [|exact HL].
      f_equal. unfold extractContent, string_match.
      now rewrite (proj2 (regex_search_None L [])) by
        (intros [pre [m [post [Heq Hci]]]];
         destruct pre; [|discriminate]; destruct m; [|discriminate];
         destruct L; inversion Hci).
    + unfold sectionBlock. apply in_or_app. right. apply in_or_app. right.
      apply in_or_app. right. apply in_or_app. now left.
Qed.

Lemma absent_by_check (c : char16) (l : JSString) :
  forallb (fun x => negb (x =? c)) l = true -> ~ In c l.
Proof.
  intros H Hin. rewrite forallb_forall in H.
  specialize (H c Hin). now rewrite N.eqb_refl in H.
Qed.

(** When neither the extraction text nor the date holds a dollar sign or an
    opening brace, the document is the template with the blocks in place of
    [{{CONTENT}}] and the date in place of [{{DATE}}], and no placeholder is
    left in it. *)
Lemma formattedHtml_plain (today contentText : JSString) :
  ~ In 36 contentText -> ~ In 123 contentText ->
  ~ In 36 today -> ~ In 123 today ->
  formattedHtml today contentText
  = template_head ++ structuredContent contentText ++ template_middle
      ++ today ++ template_tail /\
  includes (formattedHtml today contentText) (js "{{CONTENT}}") = false /\
  includes (formattedHtml today contentText) (js "{{DATE}}") = false.
Proof.
  intros Hd Hb Htd Htb.
  assert (Hsd : ~ In 36 (structuredContent contentText)).
  { intro H. apply In_structuredContent in H as [H|H]; [now apply Hd|].
    revert H. apply absent_by_check. vm_compute. reflexivity. }
  assert (Hsb : ~ In 123 (structuredContent contentText)).
  { intro H. apply In_structuredContent in H as [H|H]; [now apply Hb|].
    revert H. apply absent_by_check. vm_compute. reflexivity. }
  assert (Heq : formattedHtml today contentText
                = template_head ++ structuredContent contentText
                    ++ template_middle ++ today ++ template_tail).
  { unfold formattedHtml. rewrite template_pieces.
    rewrite replace_at; [| apply never_starts_sound; vm_compute; reflexivity
                         | exact Hsd].
    rewrite !app_assoc, <- (app_assoc _ (js "{{DATE}}")).
    rewrite replace_at; [now rewrite <- !app_assoc | | exact Htd].
    apply no_start_app; [apply no_start_app|].
    - apply never_starts_sound. vm_compute. reflexivity.
    - now apply (no_start_absent 123).
    - apply never_starts_sound. vm_compute. reflexivity. }
  split; [exact Heq|].
  assert (Hfree : forall pat,
             never_starts (123 :: pat) template_head = true ->
             never_starts (123 :: pat) template_middle = true ->
             indexOf (123 :: pat) template_tail = None ->
             includes (formattedHtml today contentText) (123 :: pat) = false).
  { intros pat H1 H2 H3. unfold includes. rewrite Heq.
    rewrite indexOf_no_start by now apply never_starts_sound.
    rewrite indexOf_no_start by now apply (no_start_absent 123).
    rewrite indexOf_no_start by now apply never_starts_sound.
    rewrite indexOf_no_start by now apply (no_start_absent 123).
    now rewrite H3. }
  split; apply Hfree; vm_compute; reflexivity.
Qed.

(** C7. On the extraction text "Evidence Details: a note reading $&" the
    assembled document still holds the placeholder [{{CONTENT}}] and does
    not hold the block of "Evidence Details"; on "Incident Details:
    {{DATE}}" the date goes into the incident block and the placeholder
    [{{DATE}}] of the footer remains. *)
Theorem placeholders_survive_assembly :
  let today := js "2/11/2026" in
  let withDollar := js "Evidence Details: a note reading $&" in
  let withDate := js "Incident Details: {{DATE}}" in
  includes (formattedHtml today withDollar) (js "{{CONTENT}}") = true /\
  includes (formattedHtml today withDollar)
    (sectionBlock (js "Evidence Details")
       (extractContent (js "Evidence Details") withDollar)) = false /\
  includes (formattedHtml today withDate) (js "{{DATE}}") = true /\
  includes (formattedHtml today withDate)
    (sectionBlock (js "Incident Details") today) = true.
Proof.
  cbv zeta. repeat split; vm_compute; reflexivity.
Qed.

(** ** The extraction step and its RegExp objects *)

Lemma nth_error_snoc (st : Store) (R : RegExp) :
  nth_error (st ++ [R]) (length st) = Some R.
Proof. induction st; simpl; auto. Qed.

(** A pattern built with the flags "i" is matched from index 0 and its
    object is left as it is. *)
Lemma string_match_obj_fresh (contentText L : JSString) (st : Store) :
  string_match_obj contentText (length st) (st ++ [mkRegExp L (js "i") 0])
  = (string_match contentText L, st ++ [mkRegExp L (js "i") 0]).
Proof.
  unfold string_match_obj, regExpBuiltinExec.
  rewrite nth_error_snoc. cbn [re_flags re_section re_lastIndex].
  replace (includes (js "i") (js "g")) with false by reflexivity.
  replace (includes (js "i") (js "y")) with false by reflexivity.
  cbn [orb]. replace (length contentText <? 0)%nat with false by reflexivity.
  cbn [skipn]. unfold string_match.
  destruct (regex_search L contentText) as [[i m]|]; reflexivity.
Qed.

Lemma extractBlock_eq (contentText L : JSString) (st : Store) :
  extractBlock contentText L st
  = (sectionBlock L (extractContent L contentText),
     st ++ [mkRegExp L (js "i") 0]).
Proof.
  unfold extractBlock, st_bind, newRegExp.
  rewrite string_match_obj_fresh. reflexivity.
Qed.

Lemma st_map_extractBlock (contentText : JSString) (labels : list JSString)
    (st : Store) :
  st_map (extractBlock contentText) labels st
  = (map (fun L => sectionBlock L (extractContent L contentText)) labels,
     st ++ map (fun L => mkRegExp L (js "i") 0) labels).
Proof.
  revert st; induction labels as [|L labels IH]; intro st.
  - simpl. now rewrite app_nil_r.
  - cbn [st_map map]. unfold st_bind at 1. rewrite extractBlock_eq.
    unfold st_bind at 1. rewrite IH. unfold st_ret.
    now rewrite <- app_assoc.
Qed.

Lemma structuredContent_run_eq (contentText : JSString) (st : Store) :
  structuredContent_run contentText st
  = (structuredContent contentText,
     st ++ map (fun L => mkRegExp L (js "i") 0) sections).
Proof.
  unfold structuredContent_run, st_bind.
  rewrite st_map_extractBlock. reflexivity.
Qed.

(** C5. The extraction step is a function of the text alone: started in any
    store of RegExp objects it yields the markup [structuredContent] of the
    text, so two runs agree whatever their stores, a second run after the
    first yields the same output, and the objects that were in the store
    before the run are left as they were; the label and content pairs
    behind the markup are those of [extractedSections]. *)
Theorem extraction_is_pure (contentText : JSString) (st st2 : Store) :
  fst (structuredContent_run contentText st) = structuredContent contentText /\
  fst (structuredContent_run contentText st)
  = fst (structuredContent_run contentText st2) /\
  fst (structuredContent_run contentText
         (snd (structuredContent_run contentText st)))
  = fst (structuredContent_run contentText st) /\
  firstn (length st) (snd (structuredContent_run contentText st)) = st /\
  structuredContent contentText
  = List.concat
      (map (fun p => sectionBlock (fst p) (snd p))
         (extractedSections contentText)).
Proof.
  rewrite !structuredContent_run_eq. cbn [fst snd].
  split; [reflexivity|]. split; [reflexivity|]. split; [reflexivity|].
  split.
  - rewrite firstn_app, Nat.sub_diag, firstn_all. cbn [firstn].
    apply app_nil_r.
  - unfold structuredContent, extractedSections.
    now rewrite join_empty_concat, map_map.
Qed.

(** ** The chat loop *)

Lemma fallback_needs_no_search :
  negb (is_empty FALLBACK) && includes FALLBACK (js "NEEDS_SEARCH") = false.
Proof. vm_compute. reflexivity. Qed.

Lemma is_empty_false (s : JSString) : s <> [] -> is_empty s = false.
Proof. destruct s; [congruence | reflexivity]. Qed.

(** The reply of the first generation call, or the fallback when it fails;
    a call is requested only when a key was configured. *)
Lemma callGemini_failure (services : Services) (prompt : JSString) (w : Screen) :
  genAI services = false \/ generateContent services (trace w) prompt = None ->
  try_catch (callGemini services prompt) (fun _ => ret FALLBACK) w
  = (Normal FALLBACK,
     mkScreen (messages w) (inputText w) (isLoading w)
       (trace w ++ if genAI services then [GenerateContent prompt] else [])).
Proof.
  intro H. unfold try_catch, callGemini.
  destruct (genAI services) eqn:Eg; cbn [negb].
  - destruct H as [H|H]; [discriminate|]. rewrite H. reflexivity.
  - unfold throw, ret. rewrite app_nil_r. now destruct w.
Qed.

Lemma saveInteraction_eq (services : Services) (r : Role) (message : JSString)
    (metadata : Metadata) (w : Screen) :
  saveInteraction services r message metadata w
  = (Normal tt, request (Insert r message metadata) w).
Proof.
  unfold saveInteraction, try_catch.
  destruct (insert_rejected services (trace w)); reflexivity.
Qed.

Lemma querySerpApiForIPC_eq (services : Services) (query : JSString) (w : Screen) :
  querySerpApiForIPC services query w
  = (Normal (if SERPAPI_KEY services && isWellFormed query
             then option_map (firstn 5) (organic_results services (trace w) query)
             else None),
     mkScreen (messages w) (inputText w) (isLoading w)
       (trace w ++ if SERPAPI_KEY services && isWellFormed query
                   then [Fetch query] else [])).
Proof.
  unfold querySerpApiForIPC.
  destruct (SERPAPI_KEY services); cbn [negb andb].
  - unfold try_catch.
    destruct (isWellFormed query); cbn [negb].
    + destruct (organic_results services (trace w) query); reflexivity.
    + unfold ret. rewrite app_nil_r. now destruct w.
  - unfold ret. rewrite app_nil_r. now destruct w.
Qed.

(** The send whose first generation call fails. *)
Lemma first_call_failure (services : Services) (w : Screen) :
  trim (inputText w) <> [] ->
  (genAI services = false \/
   generateContent services
     (trace w ++ [Insert user (trim (inputText w)) NoMetadata])
     (chatPrompt (trim (inputText w))) = None) ->
  handleSend services w
  = (Normal tt,
     mkScreen
       (messages w
          ++ [mkMessage user (trim (inputText w));
              mkMessage assistant
                (js "I am having trouble reaching the helper service right now. Please try again shortly.")])
       [] false
       ((trace w ++ [Insert user (trim (inputText w)) NoMetadata])
          ++ (if genAI services
              then [GenerateContent (chatPrompt (trim (inputText w)))]
              else [])
          ++ [Insert assistant FALLBACK NoMetadata])).
Proof.
  intros Hinput Hfail.
  unfold handleSend. unfold bind at 1. unfold getInputText.
  rewrite (is_empty_false _ Hinput).
  unfold bind at 1. unfold setMessages at 1.
  unfold bind at 1. unfold setInputText at 1.
  unfold bind at 1. rewrite saveInteraction_eq.
  unfold bind at 1. unfold setIsLoading at 1.
  unfold try_finally. unfold bind at 1.
  cbn [request messages inputText isLoading trace].
  rewrite callGemini_failure by exact Hfail.
  unfold bind at 1. rewrite fallback_needs_no_search.
  unfold ret at 1. cbn [fst snd].
  unfold bind at 1. unfold setMessages at 1.
  rewrite saveInteraction_eq.
  unfold setIsLoading, request. cbn [messages inputText isLoading trace].
  rewrite <- !app_assoc. reflexivity.
Qed.

(** The send whose first answer asks for a search. *)
Lemma handleSend_search_path (services : Services) (w : Screen) (reply1 : JSString) :
  trim (inputText w) <> [] ->
  genAI services = true ->
  generateContent services
    (trace w ++ [Insert user (trim (inputText w)) NoMetadata])
    (chatPrompt (trim (inputText w))) = Some reply1 ->
  includes reply1 (js "NEEDS_SEARCH") = true ->
  let u := trim (inputText w) in
  let query := u ++ js " IPC relevant sections domestic violence India" in
  let tr2 := (trace w ++ [Insert user u NoMetadata])
               ++ [GenerateContent (chatPrompt u)] in
  let searched := SERPAPI_KEY services && isWellFormed query in
  let results :=
    if searched
    then option_map (firstn 5) (organic_results services tr2 query)
    else None in
  let tr3 := tr2 ++ (if searched then [Fetch query] else []) in
  let prompt2 :=
    sourcePrompt
      (join (js "
")
         (map (fun r => title r ++ js " - " ++ link r)
            (match results with Some l => l | None => [] end)))
      u in
  let reply :=
    match generateContent services tr3 prompt2 with
    | Some reply2 => reply2
    | None => reply1
    end in
  handleSend services w
  = (Normal tt,
     mkScreen
       (messages w ++ [mkMessage user u; mkMessage assistant reply])
       [] false
       (tr3 ++ [GenerateContent prompt2; Insert assistant reply (Sources results)]))
  /\ match results with
     | Some l => (length l <= 5)%nat
     | None => True
     end.
Proof.
  intros Hinput Hkey Hreply Hsearch u query tr2 searched results tr3 prompt2 reply.
  assert (Hne : is_empty reply1 = false).
  { destruct reply1; [vm_compute in Hsearch; discriminate | reflexivity]. }
  split.
  - unfold handleSend. unfold bind at 1. unfold getInputText.
    rewrite (is_empty_false _ Hinput).
    unfold bind at 1. unfold setMessages at 1.
    unfold bind at 1. unfold setInputText at 1.
    unfold bind at 1. rewrite saveInteraction_eq.
    unfold bind at 1. unfold setIsLoading at 1.
    unfold try_finally. unfold bind at 1.
    cbn [request messages inputText isLoading trace].
    unfold try_catch at 1. unfold callGemini at 1.
    rewrite Hkey. cbn [negb trace]. rewrite Hreply.
    unfold bind at 1. rewrite Hsearch, Hne. cbn [negb andb].
    unfold bind at 1. rewrite querySerpApiForIPC_eq.
    unfold request. cbn [messages inputText isLoading trace].
    fold u. fold query. fold tr2. fold searched. fold results. fold tr3.
    unfold bind at 1. unfold try_catch at 1. unfold callGemini at 1.
    rewrite Hkey. unfold request. cbn [negb messages inputText isLoading trace].
    fold prompt2.
    unfold reply.
    destruct (generateContent services tr3 prompt2) as [reply2|].
    + unfold ret at 1. cbn [fst snd].
      unfold bind at 1. unfold setMessages at 1.
      rewrite saveInteraction_eq.
      unfold setIsLoading, request. cbn [messages inputText isLoading trace].
      f_equal. f_equal; now rewrite <- !app_assoc.
    + unfold ret at 1 2. cbn [fst snd].
      unfold bind at 1. unfold setMessages at 1.
      rewrite saveInteraction_eq.
      unfold setIsLoading, request. cbn [messages inputText isLoading trace].
      f_equal. f_equal; now rewrite <- !app_assoc.
  - unfold results. destruct searched; [|exact I].
    destruct (organic_results services tr2 query); [|exact I].
    cbn [option_map]. apply firstn_le_length.
Qed.

(** C8, as amended.  The chat loop makes up to two generation calls and
    treats their failures differently; neither lets an exception out.
    When the first call, the one with the chat prompt, fails (no key was
    configured, or the request is rejected), the send completes normally,
    the assistant turn is the fallback sentence, and the requests are the
    two inserts and at most that one generation request: no second call
    and no search.  When the first answer asks for a search and the second
    call, the one with the sources, fails, the send completes normally too,
    the assistant turn is the first answer as it came, and no request
    follows the failed one but the insert of that turn. *)
Theorem generation_failure_gives_fallback (services : Services) (w : Screen) :
  trim (inputText w) <> [] ->
  let u := trim (inputText w) in
  ((genAI services = false \/
    generateContent services (trace w ++ [Insert user u NoMetadata])
      (chatPrompt u) = None) ->
   handleSend services w
   = (Normal tt,
      mkScreen
        (messages w
           ++ [mkMessage user u;
               mkMessage assistant
                 (js "I am having trouble reaching the helper service right now. Please try again shortly.")])
        [] false
        ((trace w ++ [Insert user u NoMetadata])
           ++ (if genAI services then [GenerateContent (chatPrompt u)] else [])
           ++ [Insert assistant FALLBACK NoMetadata])))
  /\
  (forall reply1,
     genAI services = true ->
     generateContent services (trace w ++ [Insert user u NoMetadata])
       (chatPrompt u) = Some reply1 ->
     includes reply1 (js "NEEDS_SEARCH") = true ->
     let query := u ++ js " IPC relevant sections domestic violence India" in
     let tr2 := (trace w ++ [Insert user u NoMetadata])
                  ++ [GenerateContent (chatPrompt u)] in
     let searched := SERPAPI_KEY services && isWellFormed query in
     let results :=
       if searched
       then option_map (firstn 5) (organic_results services tr2 query)
       else None in
     let tr3 := tr2 ++ (if searched then [Fetch query] else []) in
     let prompt2 :=
       sourcePrompt
         (join (js "
")
            (map (fun r => title r ++ js " - " ++ link r)
               (match results with Some l => l | None => [] end)))
         u in
     generateContent services tr3 prompt2 = None ->
     handleSend services w
     = (Normal tt,
        mkScreen
          (messages w ++ [mkMessage user u; mkMessage assistant reply1])
          [] false
          (tr3 ++ [GenerateContent prompt2;
                   Insert assistant reply1 (Sources results)]))).
Proof.
  intros Hinput u. split.
  - intro Hfail. exact (first_call_failure services w Hinput Hfail).
  - intros reply1 Hkey Hreply Hsearch query tr2 searched results tr3 prompt2 Hfail2.
    pose proof (handleSend_search_path services w reply1 Hinput Hkey Hreply Hsearch)
      as H.
    cbv zeta in H. destruct H as [H _].
    fold u in H. fold query in H. fold tr2 in H. fold searched in H.
    fold results in H. fold tr3 in H. fold prompt2 in H.
    rewrite Hfail2 in H. exact H.
Qed.

(** For C8: a service that rejects every generation request, on a screen
    that already holds the greeting; and a service that answers the first
    request with NEEDS_SEARCH and rejects the second. *)
Lemma generation_failure_gives_fallback_witness :
  let down :=
    mkServices true (fun _ _ => None) true (fun _ _ => Some []) (fun _ => false) in
  let once :=
    mkServices true
      (fun tr _ =>
         if existsb
              (fun ev => match ev with GenerateContent _ => true | _ => false end)
              tr
         then None else Some (js "NEEDS_SEARCH"))
      true (fun _ _ => Some []) (fun _ => false) in
  let w := mkScreen [mkMessage assistant GREETING] (js " He hit me ") false [] in
  handleSend down w
  = (Normal tt,
     mkScreen
       [mkMessage assistant GREETING; mkMessage user (js "He hit me");
        mkMessage assistant FALLBACK]
       [] false
       [Insert user (js "He hit me") NoMetadata;
        GenerateContent (chatPrompt (js "He hit me"));
        Insert assistant FALLBACK NoMetadata])
  /\
  handleSend once w
  = (Normal tt,
     mkScreen
       [mkMessage assistant GREETING; mkMessage user (js "He hit me");
        mkMessage assistant (js "NEEDS_SEARCH")]
       [] false
       [Insert user (js "He hit me") NoMetadata;
        GenerateContent (chatPrompt (js "He hit me"));
        Fetch (js "He hit me IPC relevant sections domestic violence India");
        GenerateContent (sourcePrompt [] (js "He hit me"));
        Insert assistant (js "NEEDS_SEARCH") (Sources (Some []))]).
Proof.
  cbv zeta. split.
  - rewrite (proj1
               (generation_failure_gives_fallback
                  (mkServices true (fun _ _ => None) true (fun _ _ => Some [])
                     (fun _ => false))
                  (mkScreen [mkMessage assistant GREETING] (js " He hit me ")
                     false [])
                  ltac:(vm_compute; discriminate))
               (or_intror eq_refl)).
    vm_compute. reflexivity.
  - pose proof
      (proj2
         (generation_failure_gives_fallback
            (mkServices true
               (fun tr _ =>
                  if existsb
                       (fun ev =>
                          match ev with GenerateContent _ => true | _ => false end)
                       tr
                  then None else Some (js "NEEDS_SEARCH"))
               true (fun _ _ => Some []) (fun _ => false))
            (mkScreen [mkMessage assistant GREETING] (js " He hit me ")
               false [])
            ltac:(vm_compute; discriminate))
         (js "NEEDS_SEARCH") eq_refl) as H.
    cbv zeta in H. rewrite H.
    + vm_compute. reflexivity.
    + vm_compute. reflexivity.
    + vm_compute. reflexivity.
    + vm_compute. reflexivity.
Defined.

(** C8 as first stated does not hold: a generation call of the send below
    fails, the one that follows the search, and the assistant turn is the
    first answer, not the fallback sentence. *)
Lemma generation_failure_not_always_fallback :
  ~ (forall (services : Services) (w : Screen),
        trim (inputText w) <> [] ->
        generation_call_failed services w ->
        exists turns,
          messages (snd (handleSend services w))
          = turns ++ [mkMessage assistant FALLBACK]).
Proof.
  intro Hclaim.
  destruct (Hclaim
              (mkServices true
                 (fun tr _ =>
                    if existsb
                         (fun ev =>
                            match ev with GenerateContent _ => true | _ => false end)
                         tr
                    then None else Some (js "NEEDS_SEARCH"))
                 true (fun _ _ => Some []) (fun _ => false))
              (mkScreen [] (js "help") false []))
    as [turns Hturns].
  - vm_compute. discriminate.
  - right.
    exists [Insert user (js "help") NoMetadata;
            GenerateContent (chatPrompt (js "help"));
            Fetch (js "help IPC relevant sections domestic violence India")],
           (sourcePrompt [] (js "help")),
           [Insert assistant (js "NEEDS_SEARCH") (Sources (Some []))].
    split; vm_compute; reflexivity.
  - assert (E : messages
                  (snd (handleSend
                          (mkServices true
                             (fun tr _ =>
                                if existsb
                                     (fun ev =>
                                        match ev with
                                        | GenerateContent _ => true
                                        | _ => false
                                        end)
                                     tr
                                then None else Some (js "NEEDS_SEARCH"))
                             true (fun _ _ => Some []) (fun _ => false))
                          (mkScreen [] (js "help") false [])))
                = [mkMessage user (js "help")]
                    ++ [mkMessage assistant (js "NEEDS_SEARCH")])
      by (vm_compute; reflexivity).
    rewrite E in Hturns. apply app_inj_tail in Hturns as [_ Hlast].
    vm_compute in Hlast. discriminate.
Qed.

(** The second generation call is treated otherwise: when the first reply
    asks for a search and the call that follows the search fails, the first
    reply stays the assistant turn. *)
Example reevaluation_failure_keeps_first_reply :
  let is_generate ev :=
    match ev with GenerateContent _ => true | _ => false end in
  let services :=
    mkServices true
      (fun tr _ => if existsb is_generate tr then None
                   else Some (js "NEEDS_SEARCH"))
      true (fun _ _ => Some []) (fun _ => false) in
  let w := mkScreen [] (js "help") false [] in
  messages (snd (handleSend services w))
  = [mkMessage user (js "help"); mkMessage assistant (js "NEEDS_SEARCH")]
  /\ fst (handleSend services w) = Normal tt.
Proof. vm_compute. split; reflexivity. Qed.

(** C10. When the input is empty or holds only white space, [handleSend]
    returns at once and leaves the screen as it was: the transcript, the
    input field and the loading flag are unchanged and nothing is requested
    from the database, the model or the search service. *)
Theorem blank_input_is_ignored (services : Services) (w : Screen) :
  (forall c, In c (inputText w) -> isWhiteSpace c = true) ->
  handleSend services w = (Normal tt, w).
Proof.
  intro Hblank. unfold handleSend, bind, getInputText.
  now rewrite (trim_blank _ Hblank).
Qed.

(** An input of blanks and a line break for C10. *)
Lemma blank_input_is_ignored_witness :
  let services :=
    mkServices true (fun _ _ => Some (js "ok")) true (fun _ _ => Some [])
      (fun _ => false) in
  let w := mkScreen [mkMessage assistant (js "Hi")] [32; 9; 10; 160] false [] in
  handleSend services w = (Normal tt, w).
Proof.
  cbv zeta.
  apply (blank_input_is_ignored
           (mkServices true (fun _ _ => Some (js "ok")) true
              (fun _ _ => Some []) (fun _ => false))
           (mkScreen [mkMessage assistant (js "Hi")] [32; 9; 10; 160] false [])).
  simpl. intros c Hc.
  repeat (destruct Hc as [<- | Hc]; [reflexivity|]).
  destruct Hc.
Defined.

(** ** The search of the Legal Rights Guide *)

Lemma filter_all (A : Type) (keep : A -> bool) (l : list A) :
  (forall x, In x l -> keep x = true) -> filter keep l = l.
Proof.
  induction l as [|a l IH]; intro H; simpl; [reflexivity|].
  rewrite (H a (or_introl eq_refl)). f_equal.
  apply IH. intros x Hx. apply H. now right.
Qed.

(** C9. The search leaves in [results] the entries of the combined data set
    (the entries of the IPC file, then those of the PWDVA file) that a
    filter keeps, in the order of the data set; the filter keeps an entry
    exactly when its title or its description contains the query, both put
    in lower case; and with the empty query every entry is kept. *)
Theorem search_returns_matching_entries
    (toLowerCase : JSString -> JSString)
    (ipcData pwdvaData : list LegalRightsGuide.Law)
    (st : LegalRightsGuide.Guide) :
  toLowerCase [] = [] ->
  let all := LegalRightsGuide.allData ipcData pwdvaData in
  let found :=
    LegalRightsGuide.results
      (LegalRightsGuide.handleSearch toLowerCase ipcData pwdvaData st) in
  let wanted item :=
    contains_ci toLowerCase (LegalRightsGuide.title item)
      (LegalRightsGuide.query st)
    \/ contains_ci toLowerCase (LegalRightsGuide.description item)
         (LegalRightsGuide.query st) in
  all = map (LegalRightsGuide.tag (js "IPC")) ipcData
        ++ map (LegalRightsGuide.tag (js "PWDVA")) pwdvaData /\
  (exists keep : LegalRightsGuide.Law -> bool,
      found = filter keep all /\
      forall item, keep item = true <-> wanted item) /\
  (forall item, In item found <-> In item all /\ wanted item) /\
  (LegalRightsGuide.query st = [] -> found = all).
Proof.
  intros Hlower all found wanted.
  set (keep := fun item : LegalRightsGuide.Law =>
         includes (toLowerCase (LegalRightsGuide.title item))
           (toLowerCase (LegalRightsGuide.query st))
         || includes (toLowerCase (LegalRightsGuide.description item))
              (toLowerCase (LegalRightsGuide.query st))).
  assert (Hfound : found = filter keep all) by reflexivity.
  assert (Hkeep : forall item, keep item = true <-> wanted item).
  { intro item. unfold keep, wanted, contains_ci.
    rewrite orb_true_iff, !includes_occurs. tauto. }
  split; [reflexivity|]. split; [|split].
  - now exists keep.
  - intro item. rewrite Hfound, filter_In, Hkeep. tauto.
  - intro Hq. rewrite Hfound. apply filter_all. intros item _.
    unfold keep. now rewrite Hq, Hlower, includes_empty.
Qed.

(** Two entries and the empty query for C9, with the lower-case mapping of
    the ASCII letters: both entries are returned, IPC first. *)
Lemma search_returns_matching_entries_witness :
  let lower :=
    map (fun c : char16 => if (65 <=? c) && (c <=? 90) then c + 32 else c) in
  let ipc :=
    [LegalRightsGuide.mkLaw (js "Cruelty by husband") (js "498A")
       (js "Cruelty by husband or relatives") []] in
  let pwdva :=
    [LegalRightsGuide.mkLaw (js "Protection orders") (js "18")
       (js "Orders the magistrate may pass") []] in
  LegalRightsGuide.results
    (LegalRightsGuide.handleSearch lower ipc pwdva
       (LegalRightsGuide.mkGuide [] [] true))
  = LegalRightsGuide.allData ipc pwdva.
Proof.
  cbv zeta.
  apply (search_returns_matching_entries
           (map (fun c : char16 =>
                   if (65 <=? c) && (c <=? 90) then c + 32 else c))
           [LegalRightsGuide.mkLaw (js "Cruelty by husband") (js "498A")
              (js "Cruelty by husband or relatives") []]
           [LegalRightsGuide.mkLaw (js "Protection orders") (js "18")
              (js "Orders the magistrate may pass") []]
           (LegalRightsGuide.mkGuide [] [] true)
           eq_refl).
  reflexivity.
Defined.

(* ================================================================== *)
(** * Part III: further properties of the two screens *)
(* ================================================================== *)

(** ** More on the field extraction *)

Lemma match_here_label (L text m : JSString) :
  match_here L text = Some m ->
  exists hd body, m = hd ++ body /\ ci_equal (L ++ js ":") hd.
Proof.
  intro H.
  destruct (match_literal (L ++ js ":") text) as [[label rest]|] eqn:E.
  - destruct (match_here_Some _ _ _ _ E) as [body [tail [Em _]]].
    apply match_literal_sound in E as [_ Hci].
    rewrite Em in H. injection H as <-. now exists label, body.
  - apply match_here_None in E. congruence.
Qed.

Lemma regex_search_label (L text : JSString) (i : nat) (m : JSString) :
  regex_search L text = Some (i, m) ->
  exists hd body, m = hd ++ body /\ ci_equal (L ++ js ":") hd.
Proof.
  revert i; induction text as [|c text IH]; intros i H; simpl in H.
  - destruct (match_here L []) eqn:E; [|discriminate].
    injection H as _ <-. now apply (match_here_label L []).
  - destruct (match_here L (c :: text)) eqn:E.
    + injection H as _ <-. now apply (match_here_label L (c :: text)).
    + destruct (regex_search L text) as [[j m']|] eqn:Es; [|discriminate].
      injection H as _ <-. now apply (IH j).
Qed.

(** X1. A label is found exactly when it occurs in the text followed by a
    colon, in any letter case; the span found is then a piece of the text
    that begins with the label and its colon as the text writes them. *)
Theorem label_found_iff (L contentText : JSString) :
  ((exists m0, string_match contentText L = Some m0) <->
   occurs_ci (L ++ js ":") contentText) /\
  forall m0,
    string_match contentText L = Some m0 ->
    occurs m0 contentText /\
    exists hd body, m0 = hd ++ body /\ ci_equal (L ++ js ":") hd.
Proof.
  split; [split|].
  - intros [m0 H]. unfold string_match in H.
    destruct (regex_search L contentText) as [[i m]|] eqn:E; [|discriminate].
    now apply (regex_search_Some_occurs _ _ i m).
  - intro Hocc. destruct (string_match contentText L) as [m0|] eqn:E.
    + now exists m0.
    + apply string_match_None in E. contradiction.
  - intros m0 H. unfold string_match in H.
    destruct (regex_search L contentText) as [[i m]|] eqn:E; [|discriminate].
    injection H as <-. split.
    + destruct (regex_search_substring _ _ _ _ E) as [post [Heq _]].
      now exists (firstn i contentText), post.
    + now apply (regex_search_label L contentText i).
Qed.

(** A label in lower case for X1. *)
Lemma label_found_iff_witness :
  occurs (js "ipc sections: 498A") (js "see ipc sections: 498A") /\
  exists hd body,
    js "ipc sections: 498A" = hd ++ body /\
    ci_equal (js "IPC Sections" ++ js ":") hd.
Proof.
  apply (proj2 (label_found_iff (js "IPC Sections") (js "see ipc sections: 498A"))).
  vm_compute. reflexivity.
Defined.

Lemma app_same_length (a b c d : JSString) :
  a ++ b = c ++ d -> length c = length a -> a = c.
Proof.
  revert c; induction a as [|x a IH]; intros [|y c] Heq Hlen;
    simpl in *; try discriminate; [reflexivity|].
  injection Heq as -> Heq. f_equal. apply IH; [exact Heq | lia].
Qed.

Lemma content_between (L pre body tail : JSString) :
  (forall pre' hd' post',
      pre ++ (L ++ js ":") ++ body ++ tail = pre' ++ hd' ++ post' ->
      ci_equal (L ++ js ":") hd' -> (length pre <= length pre')%nat) ->
  (forall k, (k < length body)%nat ->
     lookahead (skipn k (body ++ tail)) = false) ->
  lookahead tail = true ->
  extractContent L (pre ++ (L ++ js ":") ++ body ++ tail) = trim body.
Proof.
  intros Hfirst Hfree Htail.
  destruct (regex_search_first L pre (L ++ js ":") (body ++ tail)
              (ci_equal_refl _) Hfirst)
    as [body' [tail' [Es [Hpost [Htail' Hmin]]]]].
  rewrite (extractContent_found _ _ _ _ Es), replace_leading.
  f_equal.
  destruct (Nat.lt_trichotomy (length body') (length body)) as [Hlt|[Heq|Hgt]].
  - specialize (Hfree _ Hlt).
    rewrite Hpost, skipn_length_app in Hfree. congruence.
  - symmetry. now apply (app_same_length _ _ _ _ Hpost).
  - specialize (Hmin _ Hgt). rewrite skipn_length_app in Hmin. congruence.
Qed.

(** X2. When the first occurrence of the label with its colon stands in the
    canonical case, and [body] is the text from there to the next position
    where the lookahead holds, the content is [body] trimmed. *)
Theorem extractContent_between (L pre body tail : JSString) :
  (forall pre' hd' post',
      pre ++ (L ++ js ":") ++ body ++ tail = pre' ++ hd' ++ post' ->
      ci_equal (L ++ js ":") hd' -> (length pre <= length pre')%nat) ->
  (forall k, (k < length body)%nat ->
     lookahead (skipn k (body ++ tail)) = false) ->
  lookahead tail = true ->
  extractContent L (pre ++ (L ++ js ":") ++ body ++ tail) = trim body.
Proof. exact (content_between L pre body tail). Qed.

(** A complainant line followed by the incident label for X2. *)
Lemma extractContent_between_witness :
  extractContent (js "Complainant Details")
    ([] ++ (js "Complainant Details" ++ js ":") ++ js " Jane "
        ++ js "Incident Details: Delhi")
  = trim (js " Jane ").
Proof.
  apply (extractContent_between (js "Complainant Details") [] (js " Jane ")
           (js "Incident Details: Delhi")).
  - intros pre' hd' post' _ _. simpl. lia.
  - intros k Hk.
    do 6 (destruct k as [|k]; [vm_compute; reflexivity|]).
    simpl in Hk. lia.
  - vm_compute. reflexivity.
Defined.

Lemma whitespace_not_letter (c : char16) :
  isWhiteSpace c = true -> canonicalize c = c /\ (c < 65 \/ 122 < c).
Proof.
  unfold isWhiteSpace, canonicalize. intro H.
  repeat (apply orb_true_iff in H as [H|H]);
    try (apply N.eqb_eq in H; subst c; split; [reflexivity | lia]).
  apply andb_true_iff in H as [H1 H2].
  apply N.leb_le in H1. apply N.leb_le in H2.
  split; [|lia].
  destruct (97 <=? c) eqn:E1; destruct (c <=? 122) eqn:E2; try reflexivity.
  apply N.leb_le in E2. lia.
Qed.

(** No alternative of the lookahead starts with white space. *)
Lemma lookahead_whitespace (c : char16) (text : JSString) :
  isWhiteSpace c = true -> lookahead (c :: text) = false.
Proof.
  intro Hws. destruct (lookahead (c :: text)) eqn:E; [|reflexivity].
  exfalso. apply lookahead_iff in E as [E|[a [m [rest [Hin [Heq Hci]]]]]];
    [discriminate|].
  destruct (whitespace_not_letter c Hws) as [Hcan Hrange].
  rewrite lookahead_alternatives_eq in Hin. simpl in Hin.
  repeat (destruct Hin as [Hin|Hin];
          [ try discriminate; injection Hin as <-;
            inversion Hci as [|p c' pat m' Hpc Hrest]; subst;
            injection Heq as <-; rewrite Hcan in Hpc;
            vm_compute in Hpc; subst c; lia
          | ]).
  destruct Hin.
Qed.

(** X3. A label whose first occurrence stands in its canonical case, with
    its colon, and is followed by nothing but white space up to the next
    position where the lookahead holds (the next label, or the end of the
    text) has the empty content, not the placeholder.  (In another letter
    case the label itself stays in the content, see C3.) *)
Theorem blank_section_is_empty (L pre blank tail : JSString) :
  (forall pre' hd' post',
      pre ++ (L ++ js ":") ++ blank ++ tail = pre' ++ hd' ++ post' ->
      ci_equal (L ++ js ":") hd' -> (length pre <= length pre')%nat) ->
  (forall c, In c blank -> isWhiteSpace c = true) ->
  lookahead tail = true ->
  extractContent L (pre ++ (L ++ js ":") ++ blank ++ tail) = [] /\
  extractContent L (pre ++ (L ++ js ":") ++ blank ++ tail) <> NOT_PROVIDED.
Proof.
  intros Hfirst Hblank Htail.
  assert (E : extractContent L (pre ++ (L ++ js ":") ++ blank ++ tail) = []).
  { rewrite (content_between L pre blank tail Hfirst); [| |exact Htail].
    - now apply trim_blank.
    - clear Hfirst. induction blank as [|c blank IH]; intros k Hk;
        simpl in Hk; [lia|].
      destruct k as [|k].
      + apply lookahead_whitespace. apply Hblank. now left.
      + simpl. apply IH; [|lia]. intros d Hd. apply Hblank. now right. }
  split; [exact E|]. rewrite E. discriminate.
Qed.

(** "Witness Details:" followed by a line break and the next label for
    X3. *)
Lemma blank_section_is_empty_witness :
  extractContent (js "Witness Details")
    ([] ++ (js "Witness Details" ++ js ":") ++ [32; 10] ++ js "IPC Sections: 498A")
  = [].
Proof.
  apply (blank_section_is_empty (js "Witness Details") [] [32; 10]
           (js "IPC Sections: 498A")).
  - intros pre' hd' post' _ _. simpl. lia.
  - intros c Hc. simpl in Hc.
    repeat (destruct Hc as [<- | Hc]; [reflexivity|]). destruct Hc.
  - vm_compute. reflexivity.
Defined.

(** X4. The span of a label stops before any later text that one of the
    alternatives of the lookahead matches: the name of one of the first
    five labels in any letter case, with or without a colon, or "IPC
    Sections:" in any letter case. *)
Theorem truncated_at_any_alternative (L pre hd mid a stop rest : JSString) :
  ci_equal (L ++ js ":") hd ->
  (forall pre' hd' post',
      pre ++ hd ++ mid ++ stop ++ rest = pre' ++ hd' ++ post' ->
      ci_equal (L ++ js ":") hd' -> (length pre <= length pre')%nat) ->
  In (Literal a) lookahead_alternatives ->
  ci_equal a stop ->
  exists body cut,
    string_match (pre ++ hd ++ mid ++ stop ++ rest) L = Some (hd ++ body) /\
    mid = body ++ cut.
Proof.
  intros Hci Hfirst Hin Hstop.
  destruct (regex_search_first L pre hd _ Hci Hfirst)
    as [body [tail [Es [Hpost [Htail Hmin]]]]].
  assert (Hlook : lookahead (stop ++ rest) = true)
    by now apply (lookahead_literal a).
  assert (Hlen : (length body <= length mid)%nat).
  { destruct (Nat.le_gt_cases (length body) (length mid)) as [H|H]; [exact H|].
    specialize (Hmin (length mid) H).
    rewrite skipn_length_app in Hmin. congruence. }
  destruct (app_prefix_of _ _ _ _ Hpost Hlen) as [cut Hmid].
  exists body, cut. split; [|exact Hmid].
  unfold string_match. now rewrite Es.
Qed.

(** A lower-case mention of "evidence details" without colon for X4. *)
Lemma truncated_at_any_alternative_witness :
  exists body cut,
    string_match
      ([] ++ js "Incident Details:" ++ js " see " ++ js "evidence details"
          ++ js " below")
      (js "Incident Details")
    = Some (js "Incident Details:" ++ body) /\
    js " see " = body ++ cut.
Proof.
  apply (truncated_at_any_alternative (js "Incident Details") []
           (js "Incident Details:") (js " see ") (js "Evidence Details")
           (js "evidence details") (js " below")).
  - apply ci_equal_refl.
  - intros pre' hd' post' _ _. simpl. lia.
  - rewrite lookahead_alternatives_eq. simpl. auto 10.
  - repeat constructor.
Defined.

Lemma trimStart_head_ok (s : JSString) : head_ok (trimStart s).
Proof.
  induction s as [|c s IH]; simpl; [exact I|].
  destruct (isWhiteSpace c) eqn:E; [exact IH | exact E].
Qed.

Lemma trimStart_id (s : JSString) : head_ok s -> trimStart s = s.
Proof. destruct s as [|c s]; simpl; [reflexivity|]. now intros ->. Qed.

Lemma trimStart_suffix (s : JSString) : exists p, s = p ++ trimStart s.
Proof.
  induction s as [|c s [p IH]]; simpl; [now exists []|].
  destruct (isWhiteSpace c).
  - exists (c :: p). simpl. now rewrite <- IH.
  - now exists [].
Qed.

Lemma head_ok_prefix (a b : JSString) : head_ok (a ++ b) -> head_ok a.
Proof. destruct a; simpl; auto. Qed.

(** The result of [trim] neither begins nor ends with white space. *)
Lemma trim_outer (s : JSString) : head_ok (trim s) /\ head_ok (rev (trim s)).
Proof.
  unfold trim, trimEnd. rewrite rev_involutive.
  split; [|apply trimStart_head_ok].
  destruct (trimStart_suffix (rev (trimStart s))) as [p Hp].
  apply (f_equal (@rev char16)) in Hp.
  rewrite rev_involutive, rev_app_distr in Hp.
  apply (head_ok_prefix _ (rev p)).
  rewrite <- Hp. apply trimStart_head_ok.
Qed.

Lemma trim_idempotent (s : JSString) : trim (trim s) = trim s.
Proof.
  destruct (trim_outer s) as [H1 H2].
  unfold trim at 1. unfold trimEnd.
  now rewrite (trimStart_id _ H1), (trimStart_id _ H2), rev_involutive.
Qed.

(** X5. Every content, found or not, is free of white space at both ends:
    trimming it again changes nothing. *)
Theorem contents_are_trimmed (L contentText : JSString) :
  trim (extractContent L contentText) = extractContent L contentText /\
  head_ok (extractContent L contentText) /\
  head_ok (rev (extractContent L contentText)).
Proof.
  unfold extractContent.
  destruct (string_match contentText L) as [m0|].
  - split; [apply trim_idempotent | apply trim_outer].
  - repeat split; reflexivity.
Qed.

(** A text and a date without dollar sign and brace for the lemma
    [formattedHtml_plain], X6: the document is the template with the blocks
    and the date in the places of the two placeholders, and no placeholder
    is left. *)
Lemma formattedHtml_plain_witness :
  formattedHtml (js "2/11/2026") (js "Complainant Details: Jane Doe, 29")
  = template_head
      ++ structuredContent (js "Complainant Details: Jane Doe, 29")
      ++ template_middle ++ js "2/11/2026" ++ template_tail /\
  includes
    (formattedHtml (js "2/11/2026") (js "Complainant Details: Jane Doe, 29"))
    (js "{{CONTENT}}") = false /\
  includes
    (formattedHtml (js "2/11/2026") (js "Complainant Details: Jane Doe, 29"))
    (js "{{DATE}}") = false.
Proof.
  apply (formattedHtml_plain (js "2/11/2026")
           (js "Complainant Details: Jane Doe, 29"));
    apply absent_by_check; vm_compute; reflexivity.
Defined.


(** ** More on the chat loop *)

(** A generation call under [try]/[catch] with a default: it completes
    normally, touches nothing but the record of requests, and sends one
    request when a key was configured and none otherwise. *)
Lemma callGemini_caught (services : Services) (prompt d : JSString) (w : Screen) :
  exists r evs,
    try_catch (callGemini services prompt) (fun _ => ret d) w
    = (Normal r, mkScreen (messages w) (inputText w) (isLoading w)
                   (trace w ++ evs)) /\
    (evs = [] \/ evs = [GenerateContent prompt]) /\
    (r = d \/ generateContent services (trace w) prompt = Some r).
Proof.
  unfold try_catch, callGemini.
  destruct (genAI services); cbn [negb].
  - destruct (generateContent services (trace w) prompt) as [reply|] eqn:E.
    + exists reply, [GenerateContent prompt]. auto.
    + exists d, [GenerateContent prompt]. auto.
  - exists d, []. unfold throw, ret. rewrite app_nil_r.
    destruct w; auto.
Qed.

Lemma handleSend_shape (services : Services) (w : Screen) :
  trim (inputText w) <> [] ->
  exists reply metadata g1 f g2,
    handleSend services w
    = (Normal tt,
       mkScreen
         (messages w
            ++ [mkMessage user (trim (inputText w)); mkMessage assistant reply])
         [] false
         (trace w
            ++ [Insert user (trim (inputText w)) NoMetadata]
            ++ (g1 ++ f ++ g2)
            ++ [Insert assistant reply metadata])) /\
    (g1 = [] \/ g1 = [GenerateContent (chatPrompt (trim (inputText w)))]) /\
    (f = [] \/
     f = [Fetch (trim (inputText w)
                   ++ js " IPC relevant sections domestic violence India")]) /\
    (g2 = [] \/
     exists summary,
       g2 = [GenerateContent (sourcePrompt summary (trim (inputText w)))]).
Proof.
  intro Hinput.
  unfold handleSend. unfold bind at 1. unfold getInputText.
  rewrite (is_empty_false _ Hinput).
  unfold bind at 1. unfold setMessages at 1.
  unfold bind at 1. unfold setInputText at 1.
  unfold bind at 1. rewrite saveInteraction_eq.
  unfold bind at 1. unfold setIsLoading at 1.
  unfold try_finally. unfold bind at 1.
  cbn [request messages inputText isLoading trace].
  match goal with
  | |- context [try_catch (callGemini services ?p) (fun _ => ret ?d) ?w0] =>
      destruct (callGemini_caught services p d w0) as [r1 [g1 [E1 [Hg1 _]]]]
  end.
  rewrite E1. cbn [messages inputText isLoading trace].
  unfold bind at 1.
  destruct (negb (is_empty r1) && includes r1 (js "NEEDS_SEARCH")).
  - unfold bind at 1. rewrite querySerpApiForIPC_eq.
    cbn [messages inputText isLoading trace].
    unfold bind at 1.
    match goal with
    | |- context [try_catch (callGemini services ?p) (fun _ => ret ?d) ?w0] =>
        destruct (callGemini_caught services p d w0) as [r2 [g2 [E2 [Hg2 _]]]]
    end.
    rewrite E2. cbn [messages inputText isLoading trace].
    unfold ret at 1. cbn [fst snd].
    unfold bind at 1. unfold setMessages at 1.
    rewrite saveInteraction_eq.
    unfold setIsLoading, request. cbn [messages inputText isLoading trace].
    clear E1 E2.
    set (fetched := if SERPAPI_KEY services && isWellFormed _
                    then [Fetch _] else []) in *.
    match goal with |- context [Sources ?x] => set (meta := Sources x) end.
    exists r2, meta, g1, fetched, g2.
    split; [|split; [exact Hg1|split]].
    + f_equal. f_equal; now rewrite <- !app_assoc.
    + unfold fetched.
      destruct (SERPAPI_KEY services && isWellFormed _); auto.
    + destruct Hg2 as [->| ->]; [now left|]. right. eexists. reflexivity.
  - unfold ret at 1. cbn [fst snd].
    unfold bind at 1. unfold setMessages at 1.
    rewrite saveInteraction_eq.
    unfold setIsLoading, request. cbn [messages inputText isLoading trace].
    clear E1.
    exists r1, NoMetadata, g1, [], []. split; [|auto].
    f_equal. f_equal; now rewrite ?app_nil_r, <- !app_assoc.
Qed.

(** X7. Whatever the services answer, a send with a non-blank input
    completes normally: the transcript gains exactly the trimmed user turn
    and one assistant turn, the input is cleared, the loading flag is off,
    and the requests are, in this order, the insert of the user turn, at
    most one generation request with the chat prompt, at most one search
    for the user text with its fixed suffix, at most one generation request
    with a source prompt, and the insert of the assistant turn with the
    text that was appended. *)
Theorem handleSend_turns (services : Services) (w : Screen) :
  trim (inputText w) <> [] ->
  exists reply metadata g1 f g2,
    handleSend services w
    = (Normal tt,
       mkScreen
         (messages w
            ++ [mkMessage user (trim (inputText w)); mkMessage assistant reply])
         [] false
         (trace w
            ++ [Insert user (trim (inputText w)) NoMetadata]
            ++ (g1 ++ f ++ g2)
            ++ [Insert assistant reply metadata])) /\
    (g1 = [] \/ g1 = [GenerateContent (chatPrompt (trim (inputText w)))]) /\
    (f = [] \/
     f = [Fetch (trim (inputText w)
                   ++ js " IPC relevant sections domestic violence India")]) /\
    (g2 = [] \/
     exists summary,
       g2 = [GenerateContent (sourcePrompt summary (trim (inputText w)))]).
Proof. exact (handleSend_shape services w). Qed.

(** A reply that asks for a search, with a search key, for X7. *)
Lemma handleSend_turns_witness :
  let services :=
    mkServices true (fun _ _ => Some (js "NEEDS_SEARCH")) true
      (fun _ _ => Some []) (fun _ => true) in
  let w := mkScreen [] (js "help") false [] in
  exists reply metadata g1 f g2,
    handleSend services w
    = (Normal tt,
       mkScreen
         (messages w
            ++ [mkMessage user (trim (inputText w)); mkMessage assistant reply])
         [] false
         (trace w
            ++ [Insert user (trim (inputText w)) NoMetadata]
            ++ (g1 ++ f ++ g2)
            ++ [Insert assistant reply metadata])) /\
    (g1 = [] \/ g1 = [GenerateContent (chatPrompt (trim (inputText w)))]) /\
    (f = [] \/
     f = [Fetch (trim (inputText w)
                   ++ js " IPC relevant sections domestic violence India")]) /\
    (g2 = [] \/
     exists summary,
       g2 = [GenerateContent (sourcePrompt summary (trim (inputText w)))]).
Proof.
  cbv zeta.
  apply (handleSend_turns
           (mkServices true (fun _ _ => Some (js "NEEDS_SEARCH")) true
              (fun _ _ => Some []) (fun _ => true))
           (mkScreen [] (js "help") false [])).
  vm_compute. discriminate.
Defined.

(** X8. When the first generation call answers and the answer does not
    hold NEEDS_SEARCH (the empty answer included), that answer is the
    assistant turn, as it came; one generation request is sent and no
    search. *)
Theorem handleSend_reply (services : Services) (w : Screen) (reply : JSString) :
  trim (inputText w) <> [] ->
  genAI services = true ->
  generateContent services
    (trace w ++ [Insert user (trim (inputText w)) NoMetadata])
    (chatPrompt (trim (inputText w))) = Some reply ->
  includes reply (js "NEEDS_SEARCH") = false ->
  handleSend services w
  = (Normal tt,
     mkScreen
       (messages w
          ++ [mkMessage user (trim (inputText w)); mkMessage assistant reply])
       [] false
       (trace w
          ++ [Insert user (trim (inputText w)) NoMetadata;
              GenerateContent (chatPrompt (trim (inputText w)));
              Insert assistant reply NoMetadata])).
Proof.
  intros Hinput Hkey Hreply Hplain.
  unfold handleSend. unfold bind at 1. unfold getInputText.
  rewrite (is_empty_false _ Hinput).
  unfold bind at 1. unfold setMessages at 1.
  unfold bind at 1. unfold setInputText at 1.
  unfold bind at 1. rewrite saveInteraction_eq.
  unfold bind at 1. unfold setIsLoading at 1.
  unfold try_finally. unfold bind at 1.
  cbn [request messages inputText isLoading trace].
  unfold try_catch at 1. unfold callGemini at 1.
  rewrite Hkey. cbn [negb trace]. rewrite Hreply.
  unfold bind at 1. rewrite Hplain, andb_false_r.
  unfold ret at 1. cbn [fst snd].
  unfold bind at 1. unfold setMessages at 1.
  rewrite saveInteraction_eq.
  unfold setIsLoading, request. cbn [messages inputText isLoading trace].
  rewrite <- !app_assoc. reflexivity.
Qed.

(** An ordinary answer for X8. *)
Lemma handleSend_reply_witness :
  let services :=
    mkServices true (fun _ _ => Some (js "I am sorry to hear that.")) false
      (fun _ _ => None) (fun _ => false) in
  let w := mkScreen [] (js "help") false [] in
  handleSend services w
  = (Normal tt,
     mkScreen
       [mkMessage user (js "help");
        mkMessage assistant (js "I am sorry to hear that.")]
       [] false
       [Insert user (js "help") NoMetadata;
        GenerateContent (chatPrompt (js "help"));
        Insert assistant (js "I am sorry to hear that.") NoMetadata]).
Proof.
  cbv zeta.
  apply (handleSend_reply
           (mkServices true (fun _ _ => Some (js "I am sorry to hear that."))
              false (fun _ _ => None) (fun _ => false))
           (mkScreen [] (js "help") false [])
           (js "I am sorry to hear that.")).
  - vm_compute. discriminate.
  - reflexivity.
  - reflexivity.
  - vm_compute. reflexivity.
Defined.

(** X9. When the first answer asks for a search: the query is the user
    text with the fixed suffix, and it is sent only with a search key and
    when it holds no unpaired surrogate; the sources are the first five
    results at most (null without a key, with an unpaired surrogate in the
    query, or when the search fails), cited one per line in the second
    prompt and recorded with the assistant turn; the second answer is the
    assistant turn, and the first answer stays when the second call
    fails. *)
Theorem handleSend_search (services : Services) (w : Screen) (reply1 : JSString) :
  trim (inputText w) <> [] ->
  genAI services = true ->
  generateContent services
    (trace w ++ [Insert user (trim (inputText w)) NoMetadata])
    (chatPrompt (trim (inputText w))) = Some reply1 ->
  includes reply1 (js "NEEDS_SEARCH") = true ->
  let u := trim (inputText w) in
  let query := u ++ js " IPC relevant sections domestic violence India" in
  let tr2 := (trace w ++ [Insert user u NoMetadata])
               ++ [GenerateContent (chatPrompt u)] in
  let searched := SERPAPI_KEY services && isWellFormed query in
  let results :=
    if searched
    then option_map (firstn 5) (organic_results services tr2 query)
    else None in
  let tr3 := tr2 ++ (if searched then [Fetch query] else []) in
  let prompt2 :=
    sourcePrompt
      (join (js "
")
         (map (fun r => title r ++ js " - " ++ link r)
            (match results with Some l => l | None => [] end)))
      u in
  let reply :=
    match generateContent services tr3 prompt2 with
    | Some reply2 => reply2
    | None => reply1
    end in
  handleSend services w
  = (Normal tt,
     mkScreen
       (messages w ++ [mkMessage user u; mkMessage assistant reply])
       [] false
       (tr3 ++ [GenerateContent prompt2; Insert assistant reply (Sources results)]))
  /\ match results with
     | Some l => (length l <= 5)%nat
     | None => True
     end.
Proof. exact (handleSend_search_path services w reply1). Qed.

(** Six search results, of which five are recorded, for X9. *)
Lemma handleSend_search_witness :
  let item := mkSerpItem (js "IPC 498A") (js "https://example.org") [] in
  let services :=
    mkServices true
      (fun tr _ =>
         if existsb (fun ev => match ev with GenerateContent _ => true | _ => false end) tr
         then Some (js "See section 498A")
         else Some (js "NEEDS_SEARCH"))
      true (fun _ _ => Some [item; item; item; item; item; item])
      (fun _ => false) in
  let w := mkScreen [] (js "help") false [] in
  messages (snd (handleSend services w))
  = [mkMessage user (js "help"); mkMessage assistant (js "See section 498A")]
  /\ last (trace (snd (handleSend services w))) (Fetch [])
     = Insert assistant (js "See section 498A")
         (Sources (Some [item; item; item; item; item])).
Proof.
  cbv zeta.
  pose proof
    (handleSend_search
       (mkServices true
          (fun tr _ =>
             if existsb (fun ev => match ev with GenerateContent _ => true | _ => false end) tr
             then Some (js "See section 498A")
             else Some (js "NEEDS_SEARCH"))
          true
          (fun _ _ =>
             let item := mkSerpItem (js "IPC 498A") (js "https://example.org") [] in
             Some [item; item; item; item; item; item])
          (fun _ => false))
       (mkScreen [] (js "help") false [])
       (js "NEEDS_SEARCH")) as H.
  cbv zeta in H.
  destruct H as [H _].
  - vm_compute. discriminate.
  - reflexivity.
  - reflexivity.
  - vm_compute. reflexivity.
  - cbv zeta. rewrite H. split; vm_compute; reflexivity.
Defined.

(** An unpaired surrogate in the user text: the address cannot be built,
    no search is requested and the sources are null. *)
Example unpaired_surrogate_sends_no_search :
  let services :=
    mkServices true
      (fun tr _ =>
         if existsb
              (fun ev => match ev with GenerateContent _ => true | _ => false end)
              tr
         then Some (js "See section 498A")
         else Some (js "NEEDS_SEARCH"))
      true (fun _ _ => Some [mkSerpItem (js "IPC 498A") (js "https://example.org") []])
      (fun _ => false) in
  let w := mkScreen [] [55357] false [] in
  trace (snd (handleSend services w))
  = [Insert user [55357] NoMetadata;
     GenerateContent (chatPrompt [55357]);
     GenerateContent (sourcePrompt [] [55357]);
     Insert assistant (js "See section 498A") (Sources None)].
Proof. vm_compute. reflexivity. Qed.

(** X10. After any send, blank or not, and whatever the services answer,
    the send button is disabled again: a second press without new input
    does nothing. *)
Theorem send_disabled_after_send (services : Services) (w : Screen) :
  sendDisabled (snd (handleSend services w)) = true /\
  handleSend services (snd (handleSend services w))
  = (Normal tt, snd (handleSend services w)).
Proof.
  assert (Hblank : forall w', is_empty (trim (inputText w')) = true ->
                     handleSend services w' = (Normal tt, w')).
  { intros w' H. unfold handleSend, bind, getInputText. now rewrite H. }
  assert (Hdis : is_empty (trim (inputText (snd (handleSend services w)))) = true).
  { destruct (is_empty (trim (inputText w))) eqn:E.
    - now rewrite (Hblank w E).
    - destruct (handleSend_shape services w) as [r [m [g1 [f [g2 [H _]]]]]].
      + intro Hnil. now rewrite Hnil in E.
      + rewrite H. reflexivity. }
  split.
  - unfold sendDisabled. now rewrite Hdis.
  - now apply Hblank.
Qed.

(** ** The FIR document: generation, printing and sharing *)

Ltac fir_unfold :=
  unfold generateFIRAndShare, f_bind, f_try_finally, f_try_catch, lift,
    setIsLoading, callGemini, printToFile, shareAsync, emit, throw, request;
  cbn [screen outputs messages inputText isLoading trace negb].

Ltac fir_case :=
  match goal with
  | |- context [genAI ?x] => destruct (genAI x)
  | |- context [match generateContent ?a ?b ?c with _ => _ end] =>
      destruct (generateContent a b c)
  | |- context [match printToFileAsync ?d ?h with _ => _ end] =>
      destruct (printToFileAsync d h)
  | |- context [if share_rejected ?d ?u then _ else _] =>
      destruct (share_rejected d u)
  | |- context [match OS ?d with _ => _ end] => destruct (OS d)
  end;
  cbn [screen outputs messages inputText isLoading trace negb fst snd].

Lemma ends_with_1 (o : list Output) (a : Output) :
  feedback a ->
  exists outs final, o ++ [a] = o ++ outs ++ [final] /\ feedback final.
Proof. intro H. now exists [], a. Qed.

Lemma ends_with_2 (o : list Output) (a b : Output) :
  feedback b ->
  exists outs final, (o ++ [a]) ++ [b] = o ++ outs ++ [final] /\ feedback final.
Proof. intro H. exists [a], b. now rewrite <- app_assoc. Qed.

Lemma ends_with_3 (o : list Output) (a b c : Output) :
  feedback c ->
  exists outs final,
    ((o ++ [a]) ++ [b]) ++ [c] = o ++ outs ++ [final] /\ feedback final.
Proof. intro H. exists [a; b], c. now rewrite <- !app_assoc. Qed.

(** X11. Whatever the services and the device do, generating the FIR
    completes normally; it leaves the transcript and the input as they
    were and the loading flag off; it sends at most one request, a
    generation request whose prompt is built from the whole transcript, and
    no insert; and its last output is the share sheet or an alert. *)
Theorem generateFIR_frame (services : Services) (device : Device) (s : App) :
  let r := generateFIRAndShare services device s in
  fst r = Normal tt /\
  messages (screen (snd r)) = messages (screen s) /\
  inputText (screen (snd r)) = inputText (screen s) /\
  isLoading (screen (snd r)) = false /\
  (trace (screen (snd r)) = trace (screen s) \/
   trace (screen (snd r))
   = trace (screen s)
       ++ [GenerateContent (extractPrompt (convoText (messages (screen s))))]) /\
  exists outs final,
    outputs (snd r) = outputs s ++ outs ++ [final] /\ feedback final.
Proof.
  cbv zeta. fir_unfold. repeat fir_case;
    (split; [reflexivity|]); (split; [reflexivity|]);
    (split; [reflexivity|]); (split; [reflexivity|]);
    (split; [auto|]);
    first [ apply ends_with_3; exact I
          | apply ends_with_2; first [exact I | reflexivity]
          | apply ends_with_1; exact I ].
Qed.

(** X12. When the generation call fails (no key, or the request is
    rejected), nothing is printed or shared: the only output is the alert
    "Could not generate FIR.", and the request is sent only with a key. *)
Theorem generateFIR_generation_fails
    (services : Services) (device : Device) (s : App) :
  (genAI services = false \/
   generateContent services (trace (screen s))
     (extractPrompt (convoText (messages (screen s)))) = None) ->
  generateFIRAndShare services device s
  = (Normal tt,
     mkApp
       (mkScreen (messages (screen s)) (inputText (screen s)) false
          (trace (screen s)
             ++ if genAI services
                then [GenerateContent
                        (extractPrompt (convoText (messages (screen s))))]
                else []))
       (outputs s ++ [AlertShown (js "Error") (js "Could not generate FIR.")])).
Proof.
  intro H. fir_unfold.
  destruct (genAI services) eqn:Eg;
    cbn [screen outputs messages inputText isLoading trace negb fst snd].
  - destruct H as [H|H]; [discriminate|]. rewrite H.
    cbn [screen outputs messages inputText isLoading trace]. reflexivity.
  - now rewrite app_nil_r.
Qed.

(** A screen without key for X12. *)
Lemma generateFIR_generation_fails_witness :
  let services :=
    mkServices false (fun _ _ => None) false (fun _ _ => None) (fun _ => false) in
  let device := mkDevice android (js "2/11/2026") (fun _ => None) (fun _ => false) in
  let s := mkApp (mkScreen [mkMessage user (js "help")] [] false []) [] in
  generateFIRAndShare services device s
  = (Normal tt,
     mkApp (mkScreen [mkMessage user (js "help")] [] false [])
       [AlertShown (js "Error") (js "Could not generate FIR.")]).
Proof.
  cbv zeta.
  apply (generateFIR_generation_fails
           (mkServices false (fun _ _ => None) false (fun _ _ => None)
              (fun _ => false))
           (mkDevice android (js "2/11/2026") (fun _ => None) (fun _ => false))
           (mkApp (mkScreen [mkMessage user (js "help")] [] false []) [])).
  left. reflexivity.
Defined.

(** X13. When the generation call answers and the printer returns a file:
    the markup printed is the template filled from that answer and the
    local date; on Android and iOS the file is then shared as
    application/pdf (when the share sheet accepts it), and on any other
    platform an alert names the file instead. *)
Theorem generateFIR_success
    (services : Services) (device : Device) (s : App) (reply uri : JSString) :
  genAI services = true ->
  generateContent services (trace (screen s))
    (extractPrompt (convoText (messages (screen s)))) = Some reply ->
  printToFileAsync device (formattedHtml (localDate device) reply) = Some uri ->
  (OS device = otherOS \/ share_rejected device uri = false) ->
  generateFIRAndShare services device s
  = (Normal tt,
     mkApp
       (mkScreen (messages (screen s)) (inputText (screen s)) false
          (trace (screen s)
             ++ [GenerateContent
                   (extractPrompt (convoText (messages (screen s))))]))
       (outputs s
          ++ [PrintToFile (formattedHtml (localDate device) reply);
              match OS device with
              | otherOS => AlertShown (js "FIR PDF saved") (js "File: " ++ uri)
              | _ => ShareFile uri (js "application/pdf")
              end])).
Proof.
  intros Hkey Hreply Hprint Hshare. fir_unfold.
  rewrite Hkey.
  cbn [negb screen outputs messages inputText isLoading trace].
  rewrite Hreply.
  cbn [screen outputs messages inputText isLoading trace]. rewrite Hprint.
  cbn [screen outputs messages inputText isLoading trace].
  destruct (OS device) eqn:Eos;
    try (destruct Hshare as [Hshare|Hshare]; [discriminate|]; rewrite Hshare);
    cbn [screen outputs messages inputText isLoading trace];
    now rewrite <- app_assoc.
Qed.

(** An answer printed and shared on Android for X13. *)
Lemma generateFIR_success_witness :
  let services :=
    mkServices true (fun _ _ => Some (js "Complainant Details: Jane")) false
      (fun _ _ => None) (fun _ => false) in
  let device :=
    mkDevice android (js "2/11/2026") (fun _ => Some (js "file:///fir.pdf"))
      (fun _ => false) in
  let s := mkApp (mkScreen [mkMessage user (js "help")] [] false []) [] in
  outputs (snd (generateFIRAndShare services device s))
  = [PrintToFile
       (formattedHtml (js "2/11/2026") (js "Complainant Details: Jane"));
     ShareFile (js "file:///fir.pdf") (js "application/pdf")].
Proof.
  cbv zeta.
  rewrite (generateFIR_success
             (mkServices true (fun _ _ => Some (js "Complainant Details: Jane"))
                false (fun _ _ => None) (fun _ => false))
             (mkDevice android (js "2/11/2026")
                (fun _ => Some (js "file:///fir.pdf")) (fun _ => false))
             (mkApp (mkScreen [mkMessage user (js "help")] [] false []) [])
             (js "Complainant Details: Jane") (js "file:///fir.pdf")
             eq_refl eq_refl eq_refl (or_intror eq_refl)).
  reflexivity.
Defined.

(** X14. When the printer rejects, or the share sheet rejects on Android
    or iOS, the attempts made so far stay among the outputs and the alert
    "Could not generate FIR." follows them. *)
Theorem generateFIR_device_fails
    (services : Services) (device : Device) (s : App) (reply : JSString) :
  genAI services = true ->
  generateContent services (trace (screen s))
    (extractPrompt (convoText (messages (screen s)))) = Some reply ->
  (printToFileAsync device (formattedHtml (localDate device) reply) = None ->
   outputs (snd (generateFIRAndShare services device s))
   = outputs s
       ++ [PrintToFile (formattedHtml (localDate device) reply);
           AlertShown (js "Error") (js "Could not generate FIR.")]) /\
  (forall uri,
     printToFileAsync device (formattedHtml (localDate device) reply) = Some uri ->
     OS device <> otherOS ->
     share_rejected device uri = true ->
     outputs (snd (generateFIRAndShare services device s))
     = outputs s
         ++ [PrintToFile (formattedHtml (localDate device) reply);
             ShareFile uri (js "application/pdf");
             AlertShown (js "Error") (js "Could not generate FIR.")]).
Proof.
  intros Hkey Hreply. split.
  - intro Hprint. fir_unfold.
    rewrite Hkey.
    cbn [negb screen outputs messages inputText isLoading trace].
    rewrite Hreply.
    cbn [screen outputs messages inputText isLoading trace]. rewrite Hprint.
    cbn [screen outputs messages inputText isLoading trace fst snd].
    now rewrite <- app_assoc.
  - intros uri Hprint Hos Hshare. fir_unfold.
    rewrite Hkey.
    cbn [negb screen outputs messages inputText isLoading trace].
    rewrite Hreply.
    cbn [screen outputs messages inputText isLoading trace]. rewrite Hprint.
    cbn [screen outputs messages inputText isLoading trace].
    destruct (OS device); [| |congruence]; rewrite Hshare;
      cbn [screen outputs messages inputText isLoading trace fst snd];
      now rewrite <- !app_assoc.
Qed.

(** A printer that rejects for X14. *)
Lemma generateFIR_device_fails_witness :
  let services :=
    mkServices true (fun _ _ => Some (js "Complainant Details: Jane")) false
      (fun _ _ => None) (fun _ => false) in
  let device := mkDevice ios (js "2/11/2026") (fun _ => None) (fun _ => false) in
  let s := mkApp (mkScreen [mkMessage user (js "help")] [] false []) [] in
  outputs (snd (generateFIRAndShare services device s))
  = [PrintToFile
       (formattedHtml (js "2/11/2026") (js "Complainant Details: Jane"));
     AlertShown (js "Error") (js "Could not generate FIR.")].
Proof.
  cbv zeta.
  apply (proj1
           (generateFIR_device_fails
              (mkServices true (fun _ _ => Some (js "Complainant Details: Jane"))
                 false (fun _ _ => None) (fun _ => false))
              (mkDevice ios (js "2/11/2026") (fun _ => None) (fun _ => false))
              (mkApp (mkScreen [mkMessage user (js "help")] [] false []) [])
              (js "Complainant Details: Jane") eq_refl eq_refl)).
  reflexivity.
Defined.

Lemma occurs_in_join (sep x : JSString) (parts : list JSString) :
  In x parts -> occurs x (join sep parts).
Proof.
  induction parts as [|p parts IH]; intro Hin; [destruct Hin|].
  destruct parts as [|p' parts].
  - destruct Hin as [->|[]]. exists [], []. simpl. now rewrite app_nil_r.
  - destruct Hin as [->|Hin].
    + exists [], (sep ++ join sep (p' :: parts)). reflexivity.
    + destruct (IH Hin) as [pre [post Heq]].
      exists (p ++ sep ++ pre), post.
      change (join sep (p :: p' :: parts)) with (p ++ sep ++ join sep (p' :: parts)).
      rewrite Heq. now rewrite <- !app_assoc.
Qed.

Lemma occurs_inside (x a c b : JSString) : occurs x c -> occurs x (a ++ c ++ b).
Proof.
  intros [pre [post ->]]. exists (a ++ pre), (post ++ b).
  now rewrite <- !app_assoc.
Qed.

(** X15. Every turn of the transcript, the greeting of the assistant
    included, goes into the extraction prompt as it stands, behind the
    name of its speaker. *)
Theorem transcript_in_prompt (msgs : list Message) (m : Message) :
  In m msgs ->
  occurs
    ((match role m with user => js "User" | assistant => js "Assistant" end)
       ++ js ": " ++ text m)
    (extractPrompt (convoText msgs)).
Proof.
  intro Hin.
  assert (H : occurs
                ((match role m with
                  | user => js "User"
                  | assistant => js "Assistant"
                  end) ++ js ": " ++ text m)
                (convoText msgs)).
  { unfold convoText. apply occurs_in_join.
    apply in_map_iff. now exists m. }
  unfold extractPrompt. now apply occurs_inside.
Qed.

(** A transcript of two turns for X15. *)
Lemma transcript_in_prompt_witness :
  occurs (js "User" ++ js ": " ++ js "He hit me")
    (extractPrompt
       (convoText [mkMessage assistant GREETING; mkMessage user (js "He hit me")])).
Proof.
  apply (transcript_in_prompt
           [mkMessage assistant GREETING; mkMessage user (js "He hit me")]
           (mkMessage user (js "He hit me"))).
  right. left. reflexivity.
Defined.

(** ** More on the Legal Rights Guide *)

Lemma str_eqb_eq (a b : JSString) : str_eqb a b = true <-> a = b.
Proof.
  revert b; induction a as [|x a IH]; intros [|y b]; simpl;
    try (split; [discriminate | discriminate]); [tauto|].
  rewrite andb_true_iff, N.eqb_eq, IH.
  split; [intros [-> ->]; reflexivity | intro H; injection H; auto].
Qed.

Lemma set_add_In (acc : list JSString) (x y : JSString) :
  In y (LegalRightsGuide.set_add acc x) <-> In y acc \/ y = x.
Proof.
  unfold LegalRightsGuide.set_add.
  destruct (existsb (str_eqb x) acc) eqn:E.
  - split; [auto|]. intros [H| ->]; [exact H|].
    apply existsb_exists in E as [z [Hz Hxz]].
    apply str_eqb_eq in Hxz. now subst z.
  - rewrite in_app_iff. simpl. intuition congruence.
Qed.

Lemma set_add_NoDup (acc : list JSString) (x : JSString) :
  NoDup acc -> NoDup (LegalRightsGuide.set_add acc x).
Proof.
  intro H. unfold LegalRightsGuide.set_add.
  destruct (existsb (str_eqb x) acc) eqn:E; [exact H|].
  apply NoDup_app; [exact H | repeat constructor; intros [] |].
  intros y Hy [<-|[]].
  assert (existsb (str_eqb x) acc = true); [|congruence].
  apply existsb_exists. exists x. split; [exact Hy | now apply str_eqb_eq].
Qed.

Lemma keywords_fold (l : list LegalRightsGuide.Law) (acc : list JSString) :
  NoDup acc ->
  NoDup (fold_left
           (fun acc item =>
              LegalRightsGuide.set_add acc (LegalRightsGuide.title item)) l acc)
  /\ forall kw,
       In kw (fold_left
                (fun acc item =>
                   LegalRightsGuide.set_add acc (LegalRightsGuide.title item))
                l acc)
       <-> In kw acc \/ exists item, In item l /\ LegalRightsGuide.title item = kw.
Proof.
  revert acc; induction l as [|a l IH]; intros acc Hacc; cbn [fold_left].
  - split; [exact Hacc|]. intro kw. split; [auto|].
    intros [H|[item [[] _]]]. exact H.
  - destruct (IH _ (set_add_NoDup acc (LegalRightsGuide.title a) Hacc))
      as [Hnd Hin].
    split; [exact Hnd|]. intro kw. rewrite Hin, set_add_In. split.
    + intros [[H| ->]|[item [Hi Ht]]]; auto.
      * right. exists a. split; [now left | reflexivity].
      * right. exists item. split; [now right | exact Ht].
    + intros [H|[item [[<-|Hi] Ht]]]; auto.
      right. now exists item.
Qed.

Lemma keywords_are_titles_aux (ipcData pwdvaData : list LegalRightsGuide.Law) :
  NoDup (LegalRightsGuide.allKeywords ipcData pwdvaData) /\
  forall kw,
    In kw (LegalRightsGuide.allKeywords ipcData pwdvaData) <->
    exists item,
      In item (LegalRightsGuide.allData ipcData pwdvaData) /\
      LegalRightsGuide.title item = kw.
Proof.
  unfold LegalRightsGuide.allKeywords.
  destruct (keywords_fold (LegalRightsGuide.allData ipcData pwdvaData) []
              (NoDup_nil _)) as [Hnd Hin].
  split; [exact Hnd|]. intro kw. rewrite Hin. simpl. tauto.
Qed.

(** X16. The keywords are the titles of the combined data set, each one
    once. *)
Theorem keywords_are_titles (ipcData pwdvaData : list LegalRightsGuide.Law) :
  NoDup (LegalRightsGuide.allKeywords ipcData pwdvaData) /\
  forall kw,
    In kw (LegalRightsGuide.allKeywords ipcData pwdvaData) <->
    exists item,
      In item (LegalRightsGuide.allData ipcData pwdvaData) /\
      LegalRightsGuide.title item = kw.
Proof. exact (keywords_are_titles_aux ipcData pwdvaData). Qed.

Lemma occurs_refl (s : JSString) : occurs s s.
Proof. exists [], []. simpl. now rewrite app_nil_r. Qed.

Lemma occurs_trans (a b c : JSString) : occurs a b -> occurs b c -> occurs a c.
Proof.
  intros [p1 [q1 ->]] [p2 [q2 ->]].
  exists (p2 ++ p1), (q1 ++ q2). now rewrite <- !app_assoc.
Qed.

Lemma search_keeps (toLowerCase : JSString -> JSString)
    (ipcData pwdvaData : list LegalRightsGuide.Law)
    (st : LegalRightsGuide.Guide) (item : LegalRightsGuide.Law) :
  In item
    (LegalRightsGuide.results
       (LegalRightsGuide.handleSearch toLowerCase ipcData pwdvaData st))
  <-> In item (LegalRightsGuide.allData ipcData pwdvaData) /\
      (contains_ci toLowerCase (LegalRightsGuide.title item)
         (LegalRightsGuide.query st)
       \/ contains_ci toLowerCase (LegalRightsGuide.description item)
            (LegalRightsGuide.query st)).
Proof.
  unfold LegalRightsGuide.handleSearch, contains_ci.
  cbn [LegalRightsGuide.results].
  rewrite filter_In, orb_true_iff, !includes_occurs. tauto.
Qed.

(** X17. No suggestion is offered for the empty query; and whenever a
    keyword is suggested, a search for the query as it stands returns at
    least one entry, one that bears the keyword as its title. *)
Theorem suggestions_lead_to_results (toLowerCase : JSString -> JSString)
    (ipcData pwdvaData : list LegalRightsGuide.Law)
    (st : LegalRightsGuide.Guide) :
  (LegalRightsGuide.query st = [] ->
   LegalRightsGuide.filteredSuggestions toLowerCase ipcData pwdvaData st = []) /\
  forall kw,
    In kw (LegalRightsGuide.filteredSuggestions toLowerCase ipcData pwdvaData st) ->
    contains_ci toLowerCase kw (LegalRightsGuide.query st) /\
    exists item,
      In item
        (LegalRightsGuide.results
           (LegalRightsGuide.handleSearch toLowerCase ipcData pwdvaData st)) /\
      LegalRightsGuide.title item = kw.
Proof.
  unfold LegalRightsGuide.filteredSuggestions. split.
  - intros ->. cbn [length Nat.ltb Nat.leb].
    induction (LegalRightsGuide.allKeywords ipcData pwdvaData) as [|k l IH];
      simpl; [reflexivity|]. now rewrite andb_false_r.
  - intros kw Hin. apply filter_In in Hin as [Hkw Hkeep].
    apply andb_true_iff in Hkeep as [Hinc _].
    apply includes_occurs in Hinc.
    split; [exact Hinc|].
    apply (proj2 (keywords_are_titles_aux ipcData pwdvaData)) in Hkw
      as [item [Hitem Ht]].
    exists item. split; [|exact Ht].
    apply search_keeps. split; [exact Hitem|]. left. now rewrite Ht.
Qed.

(** Two titles that share a word for X17: the query "cru" suggests
    "Cruelty", and the search returns an entry of that title. *)
Lemma suggestions_lead_to_results_witness :
  let lower :=
    map (fun c : char16 => if (65 <=? c) && (c <=? 90) then c + 32 else c) in
  let ipc := [LegalRightsGuide.mkLaw (js "Cruelty") (js "498A") (js "By husband") []] in
  let pwdva := [LegalRightsGuide.mkLaw (js "Protection orders") (js "18") [] []] in
  let st := LegalRightsGuide.mkGuide (js "cru") [] true in
  contains_ci lower (js "Cruelty") (js "cru") /\
  exists item,
    In item
      (LegalRightsGuide.results
         (LegalRightsGuide.handleSearch lower ipc pwdva st)) /\
    LegalRightsGuide.title item = js "Cruelty".
Proof.
  cbv zeta.
  apply (proj2
           (suggestions_lead_to_results
              (map (fun c : char16 =>
                      if (65 <=? c) && (c <=? 90) then c + 32 else c))
              [LegalRightsGuide.mkLaw (js "Cruelty") (js "498A") (js "By husband") []]
              [LegalRightsGuide.mkLaw (js "Protection orders") (js "18") [] []]
              (LegalRightsGuide.mkGuide (js "cru") [] true))).
  vm_compute. left. reflexivity.
Defined.

(** X18. Pressing a keyword and then searching never comes back empty:
    every entry that bears the keyword as its title is returned, there is at
    least one, the query is the keyword and the suggestions are hidden;
    whatever the lower-case mapping is. *)
Theorem keyword_search_finds (toLowerCase : JSString -> JSString)
    (ipcData pwdvaData : list LegalRightsGuide.Law)
    (st : LegalRightsGuide.Guide) (kw : JSString) :
  In kw (LegalRightsGuide.allKeywords ipcData pwdvaData) ->
  let st' :=
    LegalRightsGuide.handleSearch toLowerCase ipcData pwdvaData
      (LegalRightsGuide.handleKeywordPress kw st) in
  (exists item,
      In item (LegalRightsGuide.results st') /\ LegalRightsGuide.title item = kw) /\
  (forall item,
      In item (LegalRightsGuide.allData ipcData pwdvaData) ->
      LegalRightsGuide.title item = kw ->
      In item (LegalRightsGuide.results st')) /\
  LegalRightsGuide.query st' = kw /\
  LegalRightsGuide.showSuggestions st' = false.
Proof.
  intros Hkw st'.
  assert (Hall : forall item,
             In item (LegalRightsGuide.allData ipcData pwdvaData) ->
             LegalRightsGuide.title item = kw ->
             In item (LegalRightsGuide.results st')).
  { intros item Hitem Ht. apply search_keeps. split; [exact Hitem|].
    left. unfold contains_ci. cbn [LegalRightsGuide.handleKeywordPress
                                     LegalRightsGuide.query].
    rewrite Ht. apply occurs_refl. }
  split; [|split; [exact Hall | split; reflexivity]].
  apply (proj2 (keywords_are_titles_aux ipcData pwdvaData)) in Hkw
    as [item [Hitem Ht]].
  exists item. split; [now apply Hall | exact Ht].
Qed.

(** The keyword "Cruelty" pressed and searched for X18, with a lower-case
    mapping that is not even the usual one. *)
Lemma keyword_search_finds_witness :
  let ipc := [LegalRightsGuide.mkLaw (js "Cruelty") (js "498A") (js "By husband") []] in
  exists item,
    In item
      (LegalRightsGuide.results
         (LegalRightsGuide.handleSearch (fun s => rev s) ipc []
            (LegalRightsGuide.handleKeywordPress (js "Cruelty")
               (LegalRightsGuide.mkGuide [] [] true)))) /\
    LegalRightsGuide.title item = js "Cruelty".
Proof.
  cbv zeta.
  apply (keyword_search_finds (fun s => rev s)
           [LegalRightsGuide.mkLaw (js "Cruelty") (js "498A") (js "By husband") []]
           [] (LegalRightsGuide.mkGuide [] [] true) (js "Cruelty")).
  vm_compute. left. reflexivity.
Defined.

(** X19. A query that contains another one (both in lower case) returns no
    entry that the other does not return: typing more never widens the
    results. *)
Theorem longer_query_narrows (toLowerCase : JSString -> JSString)
    (ipcData pwdvaData : list LegalRightsGuide.Law)
    (st1 st2 : LegalRightsGuide.Guide) :
  occurs (toLowerCase (LegalRightsGuide.query st1))
    (toLowerCase (LegalRightsGuide.query st2)) ->
  forall item,
    In item
      (LegalRightsGuide.results
         (LegalRightsGuide.handleSearch toLowerCase ipcData pwdvaData st2)) ->
    In item
      (LegalRightsGuide.results
         (LegalRightsGuide.handleSearch toLowerCase ipcData pwdvaData st1)).
Proof.
  intros Hsub item Hin.
  apply search_keeps in Hin as [Hitem Hwanted].
  apply search_keeps. split; [exact Hitem|].
  unfold contains_ci in *.
  destruct Hwanted as [H|H]; [left | right];
    now apply (occurs_trans _ _ _ Hsub).
Qed.

(** The queries "cru" and "Cruel" for X19. *)
Lemma longer_query_narrows_witness :
  let lower :=
    map (fun c : char16 => if (65 <=? c) && (c <=? 90) then c + 32 else c) in
  let ipc := [LegalRightsGuide.mkLaw (js "Cruelty") (js "498A") (js "By husband") []] in
  In (LegalRightsGuide.mkLaw (js "Cruelty") (js "498A") (js "By husband") (js "IPC"))
    (LegalRightsGuide.results
       (LegalRightsGuide.handleSearch lower ipc []
          (LegalRightsGuide.mkGuide (js "cru") [] true))).
Proof.
  cbv zeta.
  apply (longer_query_narrows
           (map (fun c : char16 =>
                   if (65 <=? c) && (c <=? 90) then c + 32 else c))
           [LegalRightsGuide.mkLaw (js "Cruelty") (js "498A") (js "By husband") []]
           []
           (LegalRightsGuide.mkGuide (js "cru") [] true)
           (LegalRightsGuide.mkGuide (js "Cruel") [] false)).
  - exists [], (js "el"). reflexivity.
  - vm_compute. left. reflexivity.
Defined.

(** X20. The results are the entries of the IPC file that the filter
    keeps, in the order of the file and tagged with the source "IPC",
    followed by the entries of the PWDVA file that the filter keeps, tagged
    "PWDVA", whatever source the files themselves gave; the filter keeps an
    entry exactly when its title or description contains the query, both in
    lower case; and the search replaces the former results, keeps the
    query, hides the suggestions, and changes nothing when repeated. *)
Theorem results_by_source (toLowerCase : JSString -> JSString)
    (ipcData pwdvaData : list LegalRightsGuide.Law)
    (st : LegalRightsGuide.Guide) :
  let st' := LegalRightsGuide.handleSearch toLowerCase ipcData pwdvaData st in
  let wanted item :=
    contains_ci toLowerCase (LegalRightsGuide.title item)
      (LegalRightsGuide.query st)
    \/ contains_ci toLowerCase (LegalRightsGuide.description item)
         (LegalRightsGuide.query st) in
  (exists keep : LegalRightsGuide.Law -> bool,
      (forall item, keep item = true <-> wanted item) /\
      LegalRightsGuide.results st'
      = filter keep (map (LegalRightsGuide.tag (js "IPC")) ipcData)
          ++ filter keep (map (LegalRightsGuide.tag (js "PWDVA")) pwdvaData) /\
      (forall item,
         In item (filter keep (map (LegalRightsGuide.tag (js "IPC")) ipcData)) ->
         LegalRightsGuide.source item = js "IPC") /\
      (forall item,
         In item (filter keep (map (LegalRightsGuide.tag (js "PWDVA")) pwdvaData)) ->
         LegalRightsGuide.source item = js "PWDVA")) /\
  LegalRightsGuide.query st' = LegalRightsGuide.query st /\
  LegalRightsGuide.showSuggestions st' = false /\
  LegalRightsGuide.handleSearch toLowerCase ipcData pwdvaData st' = st'.
Proof.
  cbv zeta. split; [|split; [reflexivity | split; reflexivity]].
  exists (fun item : LegalRightsGuide.Law =>
            includes (toLowerCase (LegalRightsGuide.title item))
              (toLowerCase (LegalRightsGuide.query st))
            || includes (toLowerCase (LegalRightsGuide.description item))
                 (toLowerCase (LegalRightsGuide.query st))).
  split; [|split; [|split]].
  - intro item. unfold contains_ci.
    rewrite orb_true_iff, !includes_occurs. tauto.
  - unfold LegalRightsGuide.handleSearch, LegalRightsGuide.allData.
    cbn [LegalRightsGuide.results]. apply filter_app.
  - intros item Hin. apply filter_In in Hin as [Hin _].
    apply in_map_iff in Hin as [r [<- _]]. reflexivity.
  - intros item Hin. apply filter_In in Hin as [Hin _].
    apply in_map_iff in Hin as [r [<- _]]. reflexivity.
Qed.

(** ** The keys read at load time *)

Lemma truthy_nonempty (v : option JSString) (x : JSString) :
  LegalAssistant.truthy v = Some x -> x <> [].
Proof.
  destruct v as [[|c s]|]; simpl; intro H; try discriminate.
  injection H as <-. discriminate.
Qed.

(** X21. A key that is loaded is never the empty string (an empty value
    counts as missing, in the Expo configuration as in the environment);
    so the model id is never empty, its default standing in, and the
    search key neither. *)
Theorem loaded_keys_nonempty (cfg : Config) :
  (forall name v, loadKey cfg name = Some v -> v <> []) /\
  GEMINI_MODEL_ID cfg <> [] /\
  (forall v, SERPAPI_KEY_value cfg = Some v -> v <> []) /\
  (loadKey cfg (js "GEMINI_MODEL_ID") = None ->
   GEMINI_MODEL_ID cfg = js "gemini-2.5-flash").
Proof.
  assert (H : forall name v, loadKey cfg name = Some v -> v <> []).
  { intros name v. unfold loadKey.
    destruct (truthy _) as [x|] eqn:E1.
    - intro H. injection H as <-. now apply truthy_nonempty in E1.
    - destruct (processEnv cfg) as [env|]; [|discriminate].
      apply truthy_nonempty. }
  split; [exact H|]. split; [|split].
  - unfold GEMINI_MODEL_ID.
    destruct (loadKey cfg (js "GEMINI_MODEL_ID")) as [v|] eqn:E.
    + now apply (H _ _ E).
    + discriminate.
  - intro v. unfold SERPAPI_KEY_value.
    destruct (loadKey cfg (js "SERPAPI_KEY")) as [x|] eqn:E.
    + intro Hx. injection Hx as <-. now apply (H _ _ E).
    + apply H.
  - unfold GEMINI_MODEL_ID. now intros ->.
Qed.

(** An empty model id in the Expo configuration and none in the
    environment for X21: the default is used. *)
Lemma loaded_keys_nonempty_witness :
  GEMINI_MODEL_ID
    (mkConfig (Some (fun _ => Some [])) None (Some (fun _ => None)))
  = js "gemini-2.5-flash".
Proof.
  apply (proj2 (proj2 (proj2
           (loaded_keys_nonempty
              (mkConfig (Some (fun _ => Some [])) None (Some (fun _ => None))))))).
  reflexivity.
Defined.
